(** * RewindQueue (src/network/rewind_queue.cpp)

    A shallow embedding of SuperTuxKart's rollback log: the ordered list
    [m_all_rewind_info] of RewindInfo objects, the iterator [m_current]
    into it, the lock-protected inbox [m_network_events], and the
    operations insertRewindInfo, addLocal*/addNetwork*, mergeNetworkData,
    undoUntil, replayAllEvents, isEmpty and hasMoreRewindInfo.

    Conventions.
    - A C++ [int] is a [Z].  The code only compares ticks and assigns them;
      it never does arithmetic on them, so no wrap-around can occur.
    - [std::list<RewindInfo*>] is a [list RewindInfo]; an iterator into it is
      the index of the node it designates, [length l] standing for [end()].
      Iterators of std::list stay on their node when another node is
      inserted, so the index of a node at or behind the insertion point
      grows by one; this is written out in [insertRewindInfo].
    - The calls the queue makes on its collaborators (undo(), rewind(),
      Log::warn/info/error) are recorded, in program order, in a list of
      [Effect]s returned by each operation.
    - The lock around [m_network_events] is not modelled: every operation
      is taken as one atomic step of the simulation thread. *)

From stdpp Require Import base list sorting.
From Stdlib Require Import ZArith Lia.

Open Scope Z_scope.

(** ** RewindInfo *)

Inductive RewindKind := State | Event.

(** Modelled from the spec: the class RewindInfo and its two subclasses
    RewindInfoState and RewindInfoEvent live in network/rewind_info.hpp,
    which is not part of the sources at hand.  The spec (section 3) gives a
    Record a tick, a confirmed flag, a kind (State or Event), an owner
    reference and an opaque payload.  Pointers are natural numbers. *)
Record RewindInfo := mkRewindInfo {
  m_ticks        : Z;
  m_kind         : RewindKind;
  m_is_confirmed : bool;
  m_rewinder     : nat;
  m_buffer       : nat
}.

Definition getTicks (ri : RewindInfo) : Z := m_ticks ri.
Definition isConfirmed (ri : RewindInfo) : bool := m_is_confirmed ri.
Definition isState (ri : RewindInfo) : bool :=
  match m_kind ri with State => true | Event => false end.
Definition isEvent (ri : RewindInfo) : bool :=
  match m_kind ri with State => false | Event => true end.
Definition setTicks (ri : RewindInfo) (ticks : Z) : RewindInfo :=
  {| m_ticks := ticks; m_kind := m_kind ri;
     m_is_confirmed := m_is_confirmed ri;
     m_rewinder := m_rewinder ri; m_buffer := m_buffer ri |}.

(** [new RewindInfoState(ticks, rewinder, buffer, confirmed)] *)
Definition RewindInfoState (ticks : Z) (rewinder buffer : nat)
    (confirmed : bool) : RewindInfo :=
  mkRewindInfo ticks State confirmed rewinder buffer.

(** [new RewindInfoEvent(ticks, event_rewinder, buffer, confirmed)] *)
Definition RewindInfoEvent (ticks : Z) (event_rewinder buffer : nat)
    (confirmed : bool) : RewindInfo :=
  mkRewindInfo ticks Event confirmed event_rewinder buffer.

(** ** Collaborators *)

(** Modelled from the spec: NetworkConfig (network/network_config.hpp) is
    not part of the sources at hand.  The spec (section 6) describes it as
    a role flag: the participant is either the server or a client. *)
Inductive Role := Server | Client.

Definition isServer (r : Role) : bool :=
  match r with Server => true | Client => false end.
Definition isClient (r : Role) : bool :=
  match r with Server => false | Client => true end.

(** What an operation does to the outside world, in program order. *)
Inductive Effect :=
| CallUndo (ri : RewindInfo)             (* the call undo() on the record   *)
| CallRewind (ri : RewindInfo)           (* the call rewind() on the record *)
| LogWarn (world_ticks msg_ticks : Z)    (* Log::warn, server re-timing     *)
| LogInfo (is_event : bool) (ticks : Z)  (* Log::info after an insertion    *)
| LogError (undo_ticks : Z).             (* Log::error of undoUntil         *)

(** How a call of a C++ function can end. *)
Inductive Outcome (A : Type) :=
| Returns (a : A)
| AssertionFailure      (* assert() or a fatal error stops the program *)
| UndefinedBehaviour.   (* here: dereferencing end() *)
Arguments Returns {A} a.
Arguments AssertionFailure {A}.
Arguments UndefinedBehaviour {A}.

Definition bind_outcome {A B} (o : Outcome A) (k : A -> Outcome B) : Outcome B :=
  match o with
  | Returns a => k a
  | AssertionFailure => AssertionFailure
  | UndefinedBehaviour => UndefinedBehaviour
  end.

(** ** The queue *)

Record RewindQueue := mkRewindQueue {
  m_network_events  : list RewindInfo;  (* the inbox, in arrival order *)
  m_all_rewind_info : list RewindInfo;  (* the main log *)
  m_current         : nat               (* iterator into the main log *)
}.

(** [m_all_rewind_info.end()] *)
Definition end_of_log (q : RewindQueue) : nat := length (m_all_rewind_info q).

(** reset(): both containers are cleared, [m_current = end()]. *)
Definition reset (q : RewindQueue) : RewindQueue :=
  mkRewindQueue [] [] 0.

(** The constructor calls reset(). *)
Definition new_queue : RewindQueue := reset (mkRewindQueue [] [] 0).

(** ** insertRewindInfo *)

(** The two [break] tests of the backward scan, for the element [prev]
    before the candidate position. *)
Definition stops_scan (prev ri : RewindInfo) : bool :=
  (getTicks prev <? getTicks ri)
  || ((getTicks prev =? getTicks ri) && isState prev && isEvent ri).

(** The [while (i != begin())] loop, started at [i]: returns the position
    before which [ri] is inserted. *)
Fixpoint scan_back (l : list RewindInfo) (ri : RewindInfo) (i : nat) : nat :=
  match i with
  | O => O
  | S i_prev =>
      match l !! i_prev with
      | Some prev => if stops_scan prev ri then i else scan_back l ri i_prev
      | None => i
      end
  end.

Definition insert_position (l : list RewindInfo) (ri : RewindInfo) : nat :=
  scan_back l ri (length l).

(** [std::list::insert(i, ri)]: the new node goes before position [i]. *)
Definition insert_before (i : nat) (ri : RewindInfo) (l : list RewindInfo)
    : list RewindInfo :=
  take i l ++ ri :: drop i l.

Definition insertRewindInfo (ri : RewindInfo) (q : RewindQueue) : RewindQueue :=
  let l := m_all_rewind_info q in
  let i := insert_position l ri in
  {| m_network_events := m_network_events q;
     m_all_rewind_info := insert_before i ri l;
     m_current :=
       if (m_current q =? length l)%nat
       then i                                  (* m_current = insert(i, ri) *)
       else if (i <=? m_current q)%nat
            then S (m_current q)               (* same node, one further on *)
            else m_current q |}.

Definition addLocalEvent (event_rewinder buffer : nat) (confirmed : bool)
    (ticks : Z) (q : RewindQueue) : RewindQueue :=
  insertRewindInfo (RewindInfoEvent ticks event_rewinder buffer confirmed) q.

(** The [assert(ri)] after [new] cannot fail. *)
Definition addLocalState (rewinder buffer : nat) (confirmed : bool)
    (ticks : Z) (q : RewindQueue) : RewindQueue :=
  insertRewindInfo (RewindInfoState ticks rewinder buffer confirmed) q.

Definition push_network (ri : RewindInfo) (q : RewindQueue) : RewindQueue :=
  {| m_network_events := m_network_events q ++ [ri];
     m_all_rewind_info := m_all_rewind_info q;
     m_current := m_current q |}.

Definition addNetworkEvent (event_rewinder buffer : nat) (ticks : Z)
    (q : RewindQueue) : RewindQueue :=
  push_network (RewindInfoEvent ticks event_rewinder buffer true) q.

Definition addNetworkState (rewinder buffer : nat) (ticks : Z)
    (q : RewindQueue) : RewindQueue :=
  push_network (RewindInfoState ticks rewinder buffer true) q.

(** ** mergeNetworkData *)

(** The values the drain loop keeps up to date: the queue (main log and
    iterator), [*needs_rewind], [*rewind_ticks], and what was logged. *)
Record MergeState := mkMergeState {
  ms_queue        : RewindQueue;
  ms_needs_rewind : bool;
  ms_rewind_ticks : Z;
  ms_effects      : list Effect
}.

(** One pass of the loop body for an entry [ri] that is not in the future:
    the server re-times it, it is inserted, the client looks at its tick. *)
Definition merge_entry (role : Role) (world_ticks : Z) (ri : RewindInfo)
    (s : MergeState) : MergeState :=
  let late := isServer role && (getTicks ri <? world_ticks) in
  let ri' := if late then setTicks ri world_ticks else ri in
  let warn := if late then [LogWarn world_ticks (getTicks ri)] else [] in
  let q' := insertRewindInfo ri' (ms_queue s) in
  let info := [LogInfo (isEvent ri') (getTicks ri')] in
  let past := isClient role && (getTicks ri' <? world_ticks) in
  {| ms_queue := q';
     ms_needs_rewind := if past then true else ms_needs_rewind s;
     ms_rewind_ticks :=
       if past
       then (if getTicks ri' >? ms_rewind_ticks s
             then getTicks ri' else ms_rewind_ticks s)
       else ms_rewind_ticks s;
     ms_effects := ms_effects s ++ warn ++ info |}.

(** The [while (i != end())] loop over the inbox [pending]: entries of the
    future are stepped over and stay, in their order; every other entry is
    merged and erased.  Returns what is left of the inbox. *)
Fixpoint merge_loop (role : Role) (world_ticks : Z)
    (pending : list RewindInfo) (s : MergeState)
    : list RewindInfo * MergeState :=
  match pending with
  | [] => ([], s)
  | ri :: rest =>
      if getTicks ri >? world_ticks
      then let '(kept, s') := merge_loop role world_ticks rest s in
           (ri :: kept, s')
      else merge_loop role world_ticks rest (merge_entry role world_ticks ri s)
  end.

Definition set_network_events (inbox : list RewindInfo) (q : RewindQueue)
    : RewindQueue :=
  {| m_network_events := inbox;
     m_all_rewind_info := m_all_rewind_info q;
     m_current := m_current q |}.

(** mergeNetworkData(world_ticks, &needs_rewind, &rewind_ticks).
    [rewind_ticks0] is what the caller's variable held before the call: on
    an empty inbox the function returns before writing to it. *)
Definition mergeNetworkData (role : Role) (world_ticks : Z) (rewind_ticks0 : Z)
    (q : RewindQueue) : MergeState :=
  match m_network_events q with
  | [] => mkMergeState q false rewind_ticks0 []
  | _ :: _ =>
      let '(kept, s) :=
        merge_loop role world_ticks (m_network_events q)
                   (mkMergeState q false (-9999) []) in
      {| ms_queue := set_network_events kept (ms_queue s);
         ms_needs_rewind := ms_needs_rewind s;
         ms_rewind_ticks := ms_rewind_ticks s;
         ms_effects := ms_effects s |}
  end.

(** ** Queries *)

Definition isEmpty (q : RewindQueue) : bool :=
  (m_current q =? end_of_log q)%nat.

Definition hasMoreRewindInfo (q : RewindQueue) : bool :=
  negb (m_current q =? end_of_log q)%nat.

(** Modelled from the spec: getCurrent() is declared in
    network/rewind_queue.hpp, which is not part of the sources at hand; the
    unit test reads the record under the iterator through it and the spec
    (section 8) says it resolves to the Record at the Cursor.  [None] is
    the answer at end-of-log. *)
Definition getCurrent (q : RewindQueue) : option RewindInfo :=
  m_all_rewind_info q !! m_current q.

(** ** undoUntil *)

Record UndoResult := mkUndoResult {
  ur_queue   : RewindQueue;
  ur_return  : Z;
  ur_effects : list Effect
}.

(** The test that ends the backward walk. *)
Definition is_rewind_target (undo_ticks : Z) (ri : RewindInfo) : bool :=
  (getTicks ri <=? undo_ticks) && isState ri && isConfirmed ri.

(** The do-while loop, entered with the iterator at [cur].  Dereferencing
    [end()] is undefined.  Stepping back from [begin()] is taken to give
    [end()], as the loop test [m_current != end()] presupposes (the list
    is circular through its sentinel node); the loop then ends, the error
    is logged and -1 is returned.  Yields the final iterator, the return
    value and the effects. *)
Fixpoint undo_loop (l : list RewindInfo) (undo_ticks : Z) (cur : nat)
    : Outcome (nat * Z * list Effect) :=
  match l !! cur with
  | None => UndefinedBehaviour
  | Some ri =>
      if is_rewind_target undo_ticks ri
      then Returns (cur, getTicks ri, [CallUndo ri])
      else
        match cur with
        | O => Returns (length l, -1, [CallUndo ri; LogError undo_ticks])
        | S prev =>
            bind_outcome (undo_loop l undo_ticks prev)
              (fun '(cur', ret, effs) => Returns (cur', ret, CallUndo ri :: effs))
        end
  end.

(** Where the walk starts: one step back, unless already at [begin()]. *)
Definition undo_start (q : RewindQueue) : nat :=
  match m_current q with
  | O => O
  | S prev => prev
  end.

Definition undoUntil (undo_ticks : Z) (q : RewindQueue) : Outcome UndoResult :=
  bind_outcome (undo_loop (m_all_rewind_info q) undo_ticks (undo_start q))
    (fun '(cur', ret, effs) =>
       Returns {| ur_queue := {| m_network_events := m_network_events q;
                                 m_all_rewind_info := m_all_rewind_info q;
                                 m_current := cur' |};
                  ur_return := ret;
                  ur_effects := effs |}).

(** ** replayAllEvents *)

(** The while loop, over the records from the iterator on: how many
    records the iterator passes, and the calls made.  The inner test
    [if (!hasMoreRewindInfo()) break] is the first half of the loop test
    and changes nothing. *)
Fixpoint replay_loop (ticks : Z) (from_current : list RewindInfo)
    : nat * list Effect :=
  match from_current with
  | [] => (O, [])
  | ri :: rest =>
      if getTicks ri =? ticks
      then let '(n, effs) := replay_loop ticks rest in
           (S n, (if isEvent ri then [CallRewind ri] else []) ++ effs)
      else (O, [])
  end.

Definition replayAllEvents (ticks : Z) (q : RewindQueue)
    : RewindQueue * list Effect :=
  let '(n, effs) := replay_loop ticks (drop (m_current q) (m_all_rewind_info q)) in
  ({| m_network_events := m_network_events q;
      m_all_rewind_info := m_all_rewind_info q;
      m_current := (m_current q + n)%nat |}, effs).

(** ** Sequences of calls *)

(** The public operations of the class that change the queue. *)
Inductive Op :=
| OpAddLocalEvent (event_rewinder buffer : nat) (confirmed : bool) (ticks : Z)
| OpAddLocalState (rewinder buffer : nat) (confirmed : bool) (ticks : Z)
| OpAddNetworkEvent (event_rewinder buffer : nat) (ticks : Z)
| OpAddNetworkState (rewinder buffer : nat) (ticks : Z)
| OpMergeNetworkData (world_ticks : Z)
| OpUndoUntil (undo_ticks : Z)
| OpReplayAllEvents (ticks : Z)
| OpReset.

Definition step (role : Role) (op : Op) (q : RewindQueue) : Outcome RewindQueue :=
  match op with
  | OpAddLocalEvent r b c t => Returns (addLocalEvent r b c t q)
  | OpAddLocalState r b c t => Returns (addLocalState r b c t q)
  | OpAddNetworkEvent r b t => Returns (addNetworkEvent r b t q)
  | OpAddNetworkState r b t => Returns (addNetworkState r b t q)
  | OpMergeNetworkData w => Returns (ms_queue (mergeNetworkData role w 0 q))
  | OpUndoUntil u => bind_outcome (undoUntil u q) (fun r => Returns (ur_queue r))
  | OpReplayAllEvents t => Returns (fst (replayAllEvents t q))
  | OpReset => Returns (reset q)
  end.

Fixpoint run (role : Role) (ops : list Op) (q : RewindQueue) : Outcome RewindQueue :=
  match ops with
  | [] => Returns q
  | op :: rest => bind_outcome (step role op q) (run role rest)
  end.

(** The queues a participant can get into from a fresh one. *)
Definition reachable (role : Role) (q : RewindQueue) : Prop :=
  exists ops, run role ops new_queue = Returns q.

(** ** The ordering of the main log *)

(** Ticks never go down along the log. *)
Definition tick_sorted (l : list RewindInfo) : Prop :=
  forall (i j : nat) (a b : RewindInfo),
    (i < j)%nat -> l !! i = Some a -> l !! j = Some b ->
    getTicks a <= getTicks b.

(** Among records of one tick, every State comes before every Event. *)
Definition states_before_events (l : list RewindInfo) : Prop :=
  forall (i j : nat) (a b : RewindInfo),
    l !! i = Some a -> l !! j = Some b ->
    getTicks a = getTicks b -> isState a = true -> isEvent b = true ->
    (i < j)%nat.

Definition log_ordered (l : list RewindInfo) : Prop :=
  tick_sorted l /\ states_before_events l.

(** [a] may stand before [b]: the order on (tick, kind) with State first. *)
Definition rec_le (a b : RewindInfo) : Prop :=
  getTicks a < getTicks b
  \/ (getTicks a = getTicks b /\ (isState a = true \/ isEvent b = true)).

(** [a] occurs in [l] at an earlier position than [b]. *)
Definition precedes (a b : RewindInfo) (l : list RewindInfo) : Prop :=
  exists i j : nat, (i < j)%nat /\ l !! i = Some a /\ l !! j = Some b.

(** The queue [q] with its iterator moved to [cur]. *)
Definition with_current (cur : nat) (q : RewindQueue) : RewindQueue :=
  {| m_network_events := m_network_events q;
     m_all_rewind_info := m_all_rewind_info q;
     m_current := cur |}.

(** The records at positions [from], ..., [to] of [l], [to] first: the
    order in which a backward walk from [to] down to [from] meets them. *)
Definition walked_back (from to : nat) (l : list RewindInfo) : list RewindInfo :=
  reverse (take (S to - from) (drop from l)).

(** The record the merge hands to insertRewindInfo for the inbox entry
    [ri]: on the server a late entry carries the tick [world_ticks]. *)
Definition retimed (role : Role) (world_ticks : Z) (ri : RewindInfo) : RewindInfo :=
  if isServer role && (getTicks ri <? world_ticks)
  then setTicks ri world_ticks else ri.

(** The queue after the records of [l] were handed to insertRewindInfo one
    after the other, first one first. *)
Definition insert_each (l : list RewindInfo) (q : RewindQueue) : RewindQueue :=
  foldl (fun q ri => insertRewindInfo ri q) q l.

(** [t] is the largest tick found among the records of [l]. *)
Definition is_max_tick (t : Z) (l : list RewindInfo) : Prop :=
  (exists r, r ∈ l /\ getTicks r = t) /\ (forall r, r ∈ l -> getTicks r <= t).

(** * Proofs *)

(** ** The unit test of the class, replayed on the model *)

(** [q0]: a State first, then an Event from the network, both at tick 0. *)
Example unit_test_q0_state_first :
  let q0 := addLocalState 0 0 true 0 new_queue in
  isEmpty new_queue = true
  /\ hasMoreRewindInfo new_queue = false
  /\ (isState <$> head (m_all_rewind_info q0)) = Some true
  /\ (isEvent <$> head (m_all_rewind_info q0)) = Some false
  /\ hasMoreRewindInfo q0 = true
  /\ (ur_return <$> match undoUntil 0 q0 with Returns r => Some r | _ => None end)
     = Some 0.
Proof. vm_compute. repeat split. Qed.

Example unit_test_q0_merge :
  let q0 := addLocalState 0 0 true 0 new_queue in
  let q1 := addNetworkEvent 1 0 0 q0 in
  let q2 := ms_queue (mergeNetworkData Client 0 0 q1) in
  let q3 := ms_queue (mergeNetworkData Client 0 0 (addNetworkState 1 0 0 q2)) in
  let q4 := addLocalEvent 1 0 false 1 (addLocalEvent 1 0 true 4 q3) in
  length (m_all_rewind_info q1) = 1%nat
  /\ hasMoreRewindInfo q2 = true
  /\ (isState <$> m_all_rewind_info q2) = [true; false]
  /\ (isState <$> m_all_rewind_info q3) = [true; true; false]
  /\ (getTicks <$> m_all_rewind_info q4) = [0; 0; 0; 1; 4].
Proof. vm_compute. repeat split. Qed.

(** [q1]: the Event first, then the State of the same tick. *)
Example unit_test_q1_event_first :
  (isState <$> m_all_rewind_info
     (addLocalState 0 0 true 5 (addLocalEvent 0 0 true 5 new_queue)))
  = [true; false].
Proof. reflexivity. Qed.

Section Ordering.

Lemma isEvent_negb_isState ri : isEvent ri = negb (isState ri).
Proof. unfold isEvent, isState. by destruct (m_kind ri). Qed.

#[local] Instance rec_le_trans : Transitive rec_le.
Proof.
  intros a b c. unfold rec_le. rewrite !isEvent_negb_isState.
  destruct (isState a), (isState b), (isState c); simpl; intros; lia.
Qed.

Lemma stops_scan_true prev ri : stops_scan prev ri = true -> rec_le prev ri.
Proof.
  unfold stops_scan, rec_le. intros H.
  apply orb_true_iff in H as [H | H]; [left; lia |].
  apply andb_true_iff in H as [H H3]. apply andb_true_iff in H as [H1 H2].
  right. split; [lia | by left].
Qed.

Lemma stops_scan_false p ri : stops_scan p ri = false -> rec_le ri p.
Proof.
  unfold stops_scan, rec_le. rewrite !isEvent_negb_isState.
  intros H. apply orb_false_iff in H as [H1 H2].
  destruct (Z.eqb_spec (getTicks p) (getTicks ri)) as [E | E]; [| left; lia].
  right. split; [done |]. simpl in H2.
  destruct (isState p), (isState ri); simpl in *; auto; discriminate.
Qed.

(** Where the backward scan ends: everything it stepped over refuses to
    stand before [ri], and the record it stopped behind accepts. *)
Lemma scan_back_spec l ri i :
  (i <= length l)%nat ->
  (scan_back l ri i <= i)%nat
  /\ (forall j x, (scan_back l ri i <= j < i)%nat -> l !! j = Some x ->
                  stops_scan x ri = false)
  /\ (forall j x, scan_back l ri i = S j -> l !! j = Some x ->
                  stops_scan x ri = true).
Proof.
  induction i as [| i IH]; intros Hi; simpl.
  - repeat split; intros; lia.
  - destruct (l !! i) as [prev |] eqn:E.
    + destruct (stops_scan prev ri) eqn:Hs.
      * repeat split; [lia | intros; lia |].
        intros j x [= <-] Hx. congruence.
      * destruct IH as (IH1 & IH2 & IH3); [lia |].
        repeat split; [lia | | done].
        intros j x Hj Hx. destruct (decide (j = i)) as [-> | Hne].
        -- congruence.
        -- apply (IH2 j); [lia | done].
    + apply lookup_ge_None in E. lia.
Qed.

Lemma StronglySorted_lookup_lt (l : list RewindInfo) i j a b :
  StronglySorted rec_le l -> (i < j)%nat ->
  l !! i = Some a -> l !! j = Some b -> rec_le a b.
Proof.
  intros Hs. revert i j. induction Hs as [| x l Hs IH Hx]; intros i j Hij Ha Hb.
  - by rewrite lookup_nil in Ha.
  - destruct j as [| j]; [lia |]. simpl in Hb.
    destruct i as [| i]; simpl in Ha.
    + injection Ha as ->. by eapply Forall_lookup_1.
    + apply (IH i j); [lia | done | done].
Qed.

Lemma insert_before_sorted l ri :
  StronglySorted rec_le l ->
  StronglySorted rec_le (insert_before (insert_position l ri) ri l).
Proof.
  intros Hs. unfold insert_before, insert_position.
  destruct (scan_back_spec l ri (length l)) as (Hle & Hafter & Hprev); [lia |].
  set (p := scan_back l ri (length l)) in *.
  assert (Hs' := Hs). rewrite <- (take_drop p l) in Hs'.
  apply StronglySorted_app in Hs' as (Hcross & Hs1 & Hs2).
  assert (Hri : Forall (rec_le ri) (drop p l)).
  { apply Forall_lookup. intros k x Hk. rewrite lookup_drop in Hk.
    apply stops_scan_false, (Hafter (p + k)%nat); [| done].
    apply lookup_lt_Some in Hk. lia. }
  assert (Hbefore : Forall (fun x => rec_le x ri) (take p l)).
  { apply Forall_lookup. intros k x Hk.
    apply lookup_take_Some in Hk as [Hk Hkp].
    destruct p as [| j]; [lia |].
    destruct (lookup_lt_is_Some_2 l j) as [prev Hj]; [lia |].
    assert (rec_le prev ri) by (apply stops_scan_true, (Hprev j); done).
    destruct (decide (k = j)) as [-> | Hne]; [congruence |].
    transitivity prev; [| done].
    apply (StronglySorted_lookup_lt l k j); [done | lia | done | done]. }
  apply StronglySorted_app. split_and!; [| done |].
  - intros x1 x2 H1 H2. apply elem_of_cons in H2 as [-> | H2].
    + by eapply Forall_forall in Hbefore.
    + by apply Hcross.
  - by apply StronglySorted_cons.
Qed.

Lemma sorted_log_ordered l : StronglySorted rec_le l -> log_ordered l.
Proof.
  intros Hs. split.
  - intros i j a b Hij Ha Hb.
    pose proof (StronglySorted_lookup_lt l i j a b Hs Hij Ha Hb) as H.
    unfold rec_le in H. lia.
  - intros i j a b Ha Hb Ht Hsa Heb.
    destruct (decide (i < j)%nat) as [| Hge]; [done | exfalso].
    destruct (decide (i = j)) as [-> | Hne].
    + rewrite Ha in Hb. injection Hb as ->.
      rewrite isEvent_negb_isState, Hsa in Heb. discriminate.
    + assert (H : rec_le b a).
      { apply (StronglySorted_lookup_lt l j i); [done | lia | done | done]. }
      unfold rec_le in H. rewrite !isEvent_negb_isState in *.
      rewrite Hsa in H. destruct (isState b); simpl in *; [discriminate | lia].
Qed.

Lemma insertRewindInfo_sorted ri q :
  StronglySorted rec_le (m_all_rewind_info q) ->
  StronglySorted rec_le (m_all_rewind_info (insertRewindInfo ri q)).
Proof. apply insert_before_sorted. Qed.

Lemma insert_each_sorted l q :
  StronglySorted rec_le (m_all_rewind_info q) ->
  StronglySorted rec_le (m_all_rewind_info (insert_each l q)).
Proof.
  revert q. induction l as [| ri l IH]; intros q Hs; [done |].
  apply (IH (insertRewindInfo ri q)). by apply insertRewindInfo_sorted.
Qed.

Lemma merge_loop_sorted role w pending s :
  StronglySorted rec_le (m_all_rewind_info (ms_queue s)) ->
  StronglySorted rec_le
    (m_all_rewind_info (ms_queue (merge_loop role w pending s).2)).
Proof.
  revert s. induction pending as [| ri rest IH]; intros s Hs; simpl; [done |].
  destruct (getTicks ri >? w).
  - specialize (IH s Hs). by destruct (merge_loop role w rest s).
  - apply IH. by apply insertRewindInfo_sorted.
Qed.

Lemma mergeNetworkData_sorted role w rt q :
  StronglySorted rec_le (m_all_rewind_info q) ->
  StronglySorted rec_le
    (m_all_rewind_info (ms_queue (mergeNetworkData role w rt q))).
Proof.
  intros Hs. unfold mergeNetworkData.
  destruct (m_network_events q) as [| ri rest] eqn:E; [done |].
  pose proof (merge_loop_sorted role w (ri :: rest)
                (mkMergeState q false (-9999) []) Hs) as H.
  by destruct (merge_loop role w (ri :: rest) _).
Qed.

Lemma undoUntil_log u q r :
  undoUntil u q = Returns r ->
  m_all_rewind_info (ur_queue r) = m_all_rewind_info q
  /\ m_network_events (ur_queue r) = m_network_events q.
Proof.
  unfold undoUntil.
  destruct (undo_loop _ _ _) as [[[c v] e] | |]; simpl; [| done | done].
  by intros [= <-].
Qed.

Lemma replayAllEvents_log t q :
  m_all_rewind_info (replayAllEvents t q).1 = m_all_rewind_info q
  /\ m_network_events (replayAllEvents t q).1 = m_network_events q.
Proof. unfold replayAllEvents. by destruct (replay_loop _ _). Qed.

Lemma step_sorted role op q q' :
  step role op q = Returns q' ->
  StronglySorted rec_le (m_all_rewind_info q) ->
  StronglySorted rec_le (m_all_rewind_info q').
Proof.
  destruct op; simpl; intros Hstep Hs;
    try (injection Hstep as <-);
    try (by apply insertRewindInfo_sorted); try done.
  - by apply mergeNetworkData_sorted.
  - destruct (undoUntil undo_ticks q) as [r | |] eqn:E; simpl in Hstep; try done.
    injection Hstep as <-. apply undoUntil_log in E as [-> _]. done.
  - by rewrite (proj1 (replayAllEvents_log ticks q)).
  - constructor.
Qed.

Lemma run_sorted role ops q q' :
  run role ops q = Returns q' ->
  StronglySorted rec_le (m_all_rewind_info q) ->
  StronglySorted rec_le (m_all_rewind_info q').
Proof.
  revert q. induction ops as [| op rest IH]; intros q Hrun Hs; simpl in Hrun.
  - by injection Hrun as <-.
  - destruct (step role op q) as [q1 | |] eqn:E; simpl in Hrun; try done.
    eapply IH; [done |]. by eapply step_sorted.
Qed.

End Ordering.

(** C1. Whatever calls were made on a fresh queue (local insertions,
    arrivals from the network, merges, undo and replay walks, resets), the
    main log is non-decreasing by tick and, among records of one tick,
    every State precedes every Event; and this still holds after each of
    any further insertions, such as those of a merge in progress. *)
Theorem main_log_ordered_after_each_insertion role ops q :
  run role ops new_queue = Returns q ->
  log_ordered (m_all_rewind_info q)
  /\ forall l, log_ordered (m_all_rewind_info (insert_each l q)).
Proof.
  intros Hrun.
  assert (Hs : StronglySorted rec_le (m_all_rewind_info q)).
  { eapply run_sorted; [done |]. constructor. }
  split; [by apply sorted_log_ordered |].
  intros l. by apply sorted_log_ordered, insert_each_sorted.
Qed.

Lemma main_log_ordered_witness :
  log_ordered
    (m_all_rewind_info
       (ms_queue (mergeNetworkData Client 0 0
          (addNetworkState 1 0 0
             (addLocalEvent 1 0 true 4 (addLocalState 0 0 true 0 new_queue)))))).
Proof.
  refine (proj1 (main_log_ordered_after_each_insertion Client
           [OpAddLocalState 0 0 true 0; OpAddLocalEvent 1 0 true 4;
            OpAddNetworkState 1 0 0; OpMergeNetworkData 0] _ _)).
  reflexivity.
Defined.

(** ** Two records of one tick and one kind *)

Section SameTickSameKind.

Lemma lookup_insert_before (l : list RewindInfo) p a j :
  (p <= length l)%nat ->
  insert_before p a l !! j =
    if decide (j < p)%nat then l !! j
    else if decide (j = p) then Some a else l !! pred j.
Proof.
  intros Hp. unfold insert_before.
  destruct (decide (j < p)%nat) as [Hlt | Hge].
  - rewrite lookup_app_l by (rewrite length_take_le; lia).
    by apply lookup_take_lt.
  - rewrite lookup_app_r by (rewrite length_take_le; lia).
    rewrite length_take_le by lia.
    destruct (decide (j = p)) as [-> | Hne].
    + by rewrite Nat.sub_diag.
    + destruct (j - p)%nat as [| d] eqn:E; [lia |]. simpl.
      rewrite lookup_drop. f_equal. lia.
Qed.

Lemma length_insert_before (l : list RewindInfo) p a :
  length (insert_before p a l) = S (length l).
Proof.
  unfold insert_before. rewrite length_app. simpl.
  rewrite length_take, length_drop. lia.
Qed.

(** The position the scan ends at is determined by the two facts of
    [scan_back_spec]. *)
Lemma scan_back_unique l ri n p :
  (p <= n)%nat -> (n <= length l)%nat ->
  (forall j x, (p <= j < n)%nat -> l !! j = Some x -> stops_scan x ri = false) ->
  (forall j x, p = S j -> l !! j = Some x -> stops_scan x ri = true) ->
  scan_back l ri n = p.
Proof.
  induction n as [| n IH]; intros Hp Hn Hafter Hprev; simpl; [lia |].
  destruct (lookup_lt_is_Some_2 l n) as [x Hx]; [lia |]. rewrite Hx.
  destruct (decide (p = S n)) as [-> | Hne].
  - by rewrite (Hprev n x).
  - rewrite (Hafter n x) by (done || lia).
    apply IH; [lia | lia | | done].
    intros j y Hj. apply Hafter. lia.
Qed.

Lemma insert_position_le l ri : (insert_position l ri <= length l)%nat.
Proof. apply scan_back_spec. lia. Qed.

(** A record [b] inserted right after a record [a] of its tick and kind
    lands directly in front of [a]. *)
Lemma insert_same_tick_same_kind l a b :
  getTicks a = getTicks b -> m_kind a = m_kind b ->
  insert_position (insert_before (insert_position l a) a l) b
    = insert_position l a.
Proof.
  intros Ht Hk. set (p := insert_position l a).
  assert (Hsame : forall x, stops_scan x b = stops_scan x a).
  { intros x. unfold stops_scan, isEvent. by rewrite Ht, Hk. }
  assert (Hab : stops_scan a b = false).
  { unfold stops_scan, isState, isEvent. rewrite <- Hk, Ht, Z.ltb_irrefl.
    destruct (m_kind a); simpl; by rewrite ?andb_false_r. }
  destruct (scan_back_spec l a (length l)) as (Hle & Hafter & Hprev); [lia |].
  fold (insert_position l a) in Hle, Hafter, Hprev. fold p in Hle, Hafter, Hprev.
  clearbody p.
  unfold insert_position at 1. rewrite length_insert_before.
  apply scan_back_unique; [lia | rewrite length_insert_before; lia | |].
  - intros j x Hj. rewrite lookup_insert_before by done.
    destruct (decide (j < p)%nat); [lia |].
    destruct (decide (j = p)) as [-> | Hne]; [by intros [= <-] |].
    intros Hx. rewrite Hsame. apply (Hafter (pred j)); [lia | done].
  - intros j x Hpj. rewrite lookup_insert_before by done.
    destruct (decide (j < p)%nat); [| lia].
    intros Hx. rewrite Hsame. by apply (Hprev j).
Qed.

End SameTickSameKind.

(** C2, as the code has it for States. Two States of one tick inserted one
    after the other end up in reverse insertion order: the second one is
    placed directly in front of the first one, which keeps its place in
    front of the records it was inserted before. *)
Theorem same_tick_states_reverse_insertion_order (q : RewindQueue)
    (a b : RewindInfo) :
  isState a = true -> isState b = true -> getTicks a = getTicks b ->
  let l := m_all_rewind_info q in
  let p := insert_position l a in
  m_all_rewind_info (insertRewindInfo b (insertRewindInfo a q))
    = take p l ++ b :: a :: drop p l
  /\ precedes b a (m_all_rewind_info (insertRewindInfo b (insertRewindInfo a q))).
Proof.
  intros Ha Hb Ht l p.
  assert (Hk : m_kind a = m_kind b).
  { unfold isState in Ha, Hb. by destruct (m_kind a), (m_kind b). }
  assert (Hp : (p <= length l)%nat) by apply insert_position_le.
  assert (Hlen : length (take p l) = p) by (apply length_take_le; lia).
  assert (Heq : m_all_rewind_info (insertRewindInfo b (insertRewindInfo a q))
                = take p l ++ b :: a :: drop p l).
  { change (m_all_rewind_info (insertRewindInfo b (insertRewindInfo a q)))
      with (insert_before (insert_position (insert_before p a l) b) b
              (insert_before p a l)).
    unfold p. rewrite (insert_same_tick_same_kind l a b Ht Hk).
    fold p. unfold insert_before.
    rewrite take_app_length' by done.
    rewrite drop_app_length' by done. done. }
  split; [done |].
  rewrite Heq. exists p, (S p). split_and!; [lia | |].
  - rewrite lookup_app_r by lia. by rewrite Hlen, Nat.sub_diag.
  - rewrite lookup_app_r by lia. rewrite Hlen.
    by replace (S p - p)%nat with 1%nat by lia.
Qed.

Lemma same_tick_states_witness :
  m_all_rewind_info
    (addLocalState 0 2 true 5 (addLocalState 0 1 false 5
       (addLocalEvent 0 3 true 5 (addLocalState 0 4 true 1 new_queue))))
  = [RewindInfoState 1 0 4 true; RewindInfoState 5 0 2 true;
     RewindInfoState 5 0 1 false; RewindInfoEvent 5 0 3 true].
Proof.
  refine (proj1 (same_tick_states_reverse_insertion_order
            (addLocalEvent 0 3 true 5 (addLocalState 0 4 true 1 new_queue))
            (RewindInfoState 5 0 1 false) (RewindInfoState 5 0 2 true) _ _ _));
    reflexivity.
Defined.

(** C2 as stated fails: the State inserted first ends up behind the State
    inserted second, and the same happens to two Events of one tick. *)
Lemma stable_insertion_counterexample :
  (m_all_rewind_info (addLocalState 0 2 true 0 (addLocalState 0 1 true 0 new_queue))
     = [RewindInfoState 0 0 2 true; RewindInfoState 0 0 1 true]
   /\ ~ precedes (RewindInfoState 0 0 1 true) (RewindInfoState 0 0 2 true)
         (m_all_rewind_info
            (addLocalState 0 2 true 0 (addLocalState 0 1 true 0 new_queue))))
  /\ (m_all_rewind_info (addLocalEvent 0 2 true 0 (addLocalEvent 0 1 true 0 new_queue))
       = [RewindInfoEvent 0 0 2 true; RewindInfoEvent 0 0 1 true]
     /\ ~ precedes (RewindInfoEvent 0 0 1 true) (RewindInfoEvent 0 0 2 true)
           (m_all_rewind_info
              (addLocalEvent 0 2 true 0 (addLocalEvent 0 1 true 0 new_queue)))).
Proof.
  split; (split; [reflexivity |]); intros (i & j & Hij & Hi & Hj);
    vm_compute in Hi, Hj;
    destruct i as [| [| i]], j as [| [| j]]; simpl in Hi, Hj;
    try lia; try discriminate.
Qed.

(** ** The backward walk of undoUntil *)

Section UndoWalk.

Lemma walked_back_one k (l : list RewindInfo) x :
  l !! k = Some x -> walked_back k k l = [x].
Proof.
  intros Hx. unfold walked_back. replace (S k - k)%nat with 1%nat by lia.
  rewrite (drop_S l x k Hx). done.
Qed.

Lemma walked_back_step k c (l : list RewindInfo) x :
  (k <= c)%nat -> l !! S c = Some x ->
  walked_back k (S c) l = x :: walked_back k c l.
Proof.
  intros Hk Hx. unfold walked_back.
  replace (S (S c) - k)%nat with (S (S c - k)) by lia.
  rewrite (take_S_r _ _ x).
  - by rewrite reverse_snoc.
  - rewrite lookup_drop. rewrite <- Hx. f_equal. lia.
Qed.

(** The walk finds the first target at or before its starting point. *)
Lemma undo_loop_found l u k st :
  l !! k = Some st -> is_rewind_target u st = true ->
  forall cur, (k <= cur)%nat -> (cur < length l)%nat ->
    (forall j x, (k < j <= cur)%nat -> l !! j = Some x ->
                 is_rewind_target u x = false) ->
    undo_loop l u cur
      = Returns (k, getTicks st, CallUndo <$> walked_back k cur l).
Proof.
  intros Hst Htarget. induction cur as [| c IH]; intros Hk Hlen Hnone.
  - assert (k = 0%nat) as -> by lia. simpl. rewrite Hst, Htarget.
    by rewrite (walked_back_one 0 l st).
  - destruct (decide (k = S c)) as [-> | Hne].
    + simpl. rewrite Hst, Htarget. by rewrite (walked_back_one (S c) l st).
    + destruct (lookup_lt_is_Some_2 l (S c)) as [x Hx]; [lia |].
      simpl. rewrite Hx. rewrite (Hnone (S c) x) by (done || lia).
      rewrite IH; [| lia | lia |].
      * simpl. by rewrite (walked_back_step k c l x) by (done || lia).
      * intros j y Hj. apply Hnone. lia.
Qed.

(** Without a target the walk goes through [begin()] and gives up. *)
Lemma undo_loop_not_found l u cur :
  (cur < length l)%nat ->
  (forall j x, (j <= cur)%nat -> l !! j = Some x ->
               is_rewind_target u x = false) ->
  undo_loop l u cur
    = Returns (length l, -1,
               (CallUndo <$> walked_back 0 cur l) ++ [LogError u]).
Proof.
  induction cur as [| c IH]; intros Hlen Hnone.
  - destruct (lookup_lt_is_Some_2 l 0) as [x Hx]; [lia |].
    simpl. rewrite Hx. rewrite (Hnone 0%nat x) by (done || lia).
    by rewrite (walked_back_one 0 l x).
  - destruct (lookup_lt_is_Some_2 l (S c)) as [x Hx]; [lia |].
    simpl. rewrite Hx. rewrite (Hnone (S c) x) by (done || lia).
    rewrite IH; [| lia |].
    + simpl. by rewrite (walked_back_step 0 c l x) by (done || lia).
    + intros j y Hj. apply Hnone. lia.
Qed.

End UndoWalk.

(** C3. Let the walk start at [undo_start q] (one before the Cursor, or the
    first record if the Cursor is there) and let position [k] hold the
    first confirmed State with tick <= undo_ticks met walking backward
    from there.  Then undoUntil calls undo() on every record from the
    start down to and including that State, in that order, leaves the
    Cursor on the State and returns its tick.  In particular, for a log
    made of a confirmed State at tick 0 followed by Events, undoUntil(5)
    calls undo() on every record in front of the Cursor, last one first
    and the State last, leaves the Cursor on the State and returns 0; with
    everything executed (Cursor at end-of-log) that is every Event and the
    State. *)
Theorem undoUntil_walks_back_to_confirmed_state :
  (forall (undo_ticks : Z) (q : RewindQueue) (k : nat) (st : RewindInfo),
     (m_current q <= end_of_log q)%nat ->
     (k <= undo_start q)%nat ->
     m_all_rewind_info q !! k = Some st ->
     is_rewind_target undo_ticks st = true ->
     (forall j x, (k < j <= undo_start q)%nat ->
                  m_all_rewind_info q !! j = Some x ->
                  is_rewind_target undo_ticks x = false) ->
     undoUntil undo_ticks q
       = Returns {| ur_queue := with_current k q;
                    ur_return := getTicks st;
                    ur_effects :=
                      CallUndo <$> walked_back k (undo_start q)
                                     (m_all_rewind_info q) |})
  /\ (forall (inbox events : list RewindInfo) (s0 : RewindInfo) (cur : nat),
        isState s0 = true -> isConfirmed s0 = true -> getTicks s0 = 0 ->
        Forall (fun e => isEvent e = true) events ->
        (cur <= length (s0 :: events))%nat ->
        undoUntil 5 (mkRewindQueue inbox (s0 :: events) cur)
          = Returns {| ur_queue := mkRewindQueue inbox (s0 :: events) 0;
                       ur_return := 0;
                       ur_effects :=
                         CallUndo <$> reverse (s0 :: take (pred cur) events) |})
  /\ (forall (inbox events : list RewindInfo) (s0 : RewindInfo),
        isState s0 = true -> isConfirmed s0 = true -> getTicks s0 = 0 ->
        Forall (fun e => isEvent e = true) events ->
        undoUntil 5 (mkRewindQueue inbox (s0 :: events) (length (s0 :: events)))
          = Returns {| ur_queue := mkRewindQueue inbox (s0 :: events) 0;
                       ur_return := 0;
                       ur_effects := CallUndo <$> reverse (s0 :: events) |}).
Proof.
  assert (Hgen : forall (undo_ticks : Z) (q : RewindQueue) (k : nat) (st : RewindInfo),
     (m_current q <= end_of_log q)%nat ->
     (k <= undo_start q)%nat ->
     m_all_rewind_info q !! k = Some st ->
     is_rewind_target undo_ticks st = true ->
     (forall j x, (k < j <= undo_start q)%nat ->
                  m_all_rewind_info q !! j = Some x ->
                  is_rewind_target undo_ticks x = false) ->
     undoUntil undo_ticks q
       = Returns {| ur_queue := with_current k q;
                    ur_return := getTicks st;
                    ur_effects :=
                      CallUndo <$> walked_back k (undo_start q)
                                     (m_all_rewind_info q) |}).
  { intros u q k st Hcur Hk Hst Htarget Hnone. unfold undoUntil.
    assert (Hlen : (k < length (m_all_rewind_info q))%nat)
      by (by eapply lookup_lt_Some).
    rewrite (undo_loop_found _ u k st Hst Htarget); [done | done | | done].
    unfold undo_start, end_of_log in *. destruct (m_current q); lia. }
  assert (Hscen : forall (inbox events : list RewindInfo) (s0 : RewindInfo) (cur : nat),
        isState s0 = true -> isConfirmed s0 = true -> getTicks s0 = 0 ->
        Forall (fun e => isEvent e = true) events ->
        (cur <= length (s0 :: events))%nat ->
        undoUntil 5 (mkRewindQueue inbox (s0 :: events) cur)
          = Returns {| ur_queue := mkRewindQueue inbox (s0 :: events) 0;
                       ur_return := 0;
                       ur_effects :=
                         CallUndo <$> reverse (s0 :: take (pred cur) events) |}).
  { intros inbox events s0 cur Hs Hc Ht Hev Hcur.
    rewrite (Hgen 5 _ 0%nat s0); simpl.
    - rewrite Ht. unfold with_current, walked_back, undo_start. simpl.
      by destruct cur.
    - unfold end_of_log. simpl in *. lia.
    - lia.
    - done.
    - unfold is_rewind_target. rewrite Ht, Hs, Hc. done.
    - intros j x Hj Hx. destruct j as [| j]; [lia |]. simpl in Hx.
      apply list_elem_of_lookup_2 in Hx.
      rewrite Forall_forall in Hev. specialize (Hev x Hx).
      unfold is_rewind_target. rewrite isEvent_negb_isState in Hev.
      destruct (isState x); [discriminate |]. by rewrite andb_false_r. }
  split_and!; [exact Hgen | exact Hscen |].
  intros inbox events s0 Hs Hc Ht Hev.
  rewrite (Hscen inbox events s0 _ Hs Hc Ht Hev) by done.
  simpl. by rewrite firstn_all.
Qed.

Lemma undoUntil_walks_back_witness :
  undoUntil 5
    (mkRewindQueue []
       [RewindInfoState 0 0 0 true; RewindInfoState 3 0 1 true;
        RewindInfoState 4 0 2 false; RewindInfoEvent 4 1 3 true;
        RewindInfoState 6 0 4 true; RewindInfoEvent 6 1 5 true] 5)
  = Returns
      {| ur_queue :=
           mkRewindQueue []
             [RewindInfoState 0 0 0 true; RewindInfoState 3 0 1 true;
              RewindInfoState 4 0 2 false; RewindInfoEvent 4 1 3 true;
              RewindInfoState 6 0 4 true; RewindInfoEvent 6 1 5 true] 1;
         ur_return := 3;
         ur_effects :=
           [CallUndo (RewindInfoState 6 0 4 true);
            CallUndo (RewindInfoEvent 4 1 3 true);
            CallUndo (RewindInfoState 4 0 2 false);
            CallUndo (RewindInfoState 3 0 1 true)] |}
  /\ undoUntil 5
       (mkRewindQueue []
          [RewindInfoState 0 0 0 true; RewindInfoEvent 2 1 1 true;
           RewindInfoEvent 7 1 2 false] 3)
     = Returns
         {| ur_queue :=
              mkRewindQueue []
                [RewindInfoState 0 0 0 true; RewindInfoEvent 2 1 1 true;
                 RewindInfoEvent 7 1 2 false] 0;
            ur_return := 0;
            ur_effects :=
              [CallUndo (RewindInfoEvent 7 1 2 false);
               CallUndo (RewindInfoEvent 2 1 1 true);
               CallUndo (RewindInfoState 0 0 0 true)] |}.
Proof.
  split.
  - refine (proj1 undoUntil_walks_back_to_confirmed_state 5
              (mkRewindQueue [] _ 5) 1%nat (RewindInfoState 3 0 1 true) _ _ _ _ _).
    + vm_compute. lia.
    + vm_compute. lia.
    + reflexivity.
    + reflexivity.
    + intros [| [| [| [| [| j]]]]] x Hj Hx; vm_compute in Hj, Hx; try lia;
        injection Hx as <-; reflexivity.
  - refine (proj2 (proj2 undoUntil_walks_back_to_confirmed_state) []
              [RewindInfoEvent 2 1 1 true; RewindInfoEvent 7 1 2 false]
              (RewindInfoState 0 0 0 true) _ _ _ _); try reflexivity.
    repeat constructor.
Defined.

(** C9, as the code has it. When the backward walk of undoUntil goes
    through the first record of a non-empty log without meeting a
    confirmed State with tick <= undo_ticks, the call has invoked undo()
    on every record from its start down to the first one, logs the error,
    leaves the Cursor at end-of-log and returns the sentinel -1. *)
Theorem undoUntil_without_target_returns_sentinel (undo_ticks : Z)
    (q : RewindQueue) :
  m_all_rewind_info q <> [] ->
  (m_current q <= end_of_log q)%nat ->
  (forall j x, (j <= undo_start q)%nat -> m_all_rewind_info q !! j = Some x ->
               is_rewind_target undo_ticks x = false) ->
  undoUntil undo_ticks q
    = Returns {| ur_queue := with_current (end_of_log q) q;
                 ur_return := -1;
                 ur_effects :=
                   (CallUndo <$> walked_back 0 (undo_start q)
                                   (m_all_rewind_info q))
                   ++ [LogError undo_ticks] |}.
Proof.
  intros Hne Hcur Hnone. unfold undoUntil.
  rewrite undo_loop_not_found; [done | | done].
  unfold undo_start, end_of_log in *.
  destruct (m_all_rewind_info q); [done |]. simpl in *.
  destruct (m_current q); lia.
Qed.

Lemma undoUntil_without_target_witness :
  undoUntil 5
    (mkRewindQueue [] [RewindInfoEvent 1 1 0 true; RewindInfoState 7 0 1 true] 2)
  = Returns
      {| ur_queue :=
           mkRewindQueue []
             [RewindInfoEvent 1 1 0 true; RewindInfoState 7 0 1 true] 2;
         ur_return := -1;
         ur_effects :=
           [CallUndo (RewindInfoState 7 0 1 true);
            CallUndo (RewindInfoEvent 1 1 0 true); LogError 5] |}.
Proof.
  refine (undoUntil_without_target_returns_sentinel 5
            (mkRewindQueue [] _ 2) _ _ _).
  - discriminate.
  - vm_compute. lia.
  - intros [| [| j]] x Hj Hx; vm_compute in Hj, Hx; try lia;
      injection Hx as <-; reflexivity.
Defined.

(** C9 as stated fails: with no confirmed State at or before tick 5 in the
    log, undoUntil(5) comes back to its caller with the value -1; it does
    not stop the program. *)
Lemma undoUntil_failure_counterexample :
  undoUntil 5
    (mkRewindQueue [] [RewindInfoEvent 1 1 0 true; RewindInfoState 7 0 1 true] 2)
  <> AssertionFailure
  /\ exists r,
       undoUntil 5
         (mkRewindQueue []
            [RewindInfoEvent 1 1 0 true; RewindInfoState 7 0 1 true] 2)
       = Returns r /\ ur_return r = -1.
Proof.
  split; [discriminate |]. eexists. split; reflexivity.
Qed.

(** ** The drain loop of mergeNetworkData *)

Section Merge.

Variable role : Role.
Variable w : Z.

Lemma merge_loop_cons ri rest s :
  merge_loop role w (ri :: rest) s =
    if getTicks ri >? w
    then (ri :: (merge_loop role w rest s).1, (merge_loop role w rest s).2)
    else merge_loop role w rest (merge_entry role w ri s).
Proof. simpl. by destruct (merge_loop role w rest s). Qed.

(** What stays in the inbox. *)
Lemma merge_loop_kept pending s :
  (merge_loop role w pending s).1 = filter (fun r => w < getTicks r) pending.
Proof.
  revert s. induction pending as [| ri rest IH]; intros s; [done |].
  rewrite merge_loop_cons, filter_cons.
  destruct (Z.gtb_spec (getTicks ri) w); case_decide; try lia; simpl.
  - by rewrite IH.
  - apply IH.
Qed.

(** What reaches the main log. *)
Lemma merge_loop_queue pending s :
  ms_queue (merge_loop role w pending s).2 =
    insert_each (retimed role w <$> filter (fun r => getTicks r <= w) pending)
                (ms_queue s).
Proof.
  revert s. induction pending as [| ri rest IH]; intros s; [done |].
  rewrite merge_loop_cons, filter_cons.
  destruct (Z.gtb_spec (getTicks ri) w); case_decide; try lia; simpl.
  - apply IH.
  - by rewrite IH.
Qed.

Lemma insert_each_network_events l q :
  m_network_events (insert_each l q) = m_network_events q.
Proof.
  revert q. induction l as [| ri l IH]; intros q; [done |].
  unfold insert_each in *. simpl. by rewrite IH.
Qed.

Lemma mergeNetworkData_queue rt0 q :
  ms_queue (mergeNetworkData role w rt0 q) =
    set_network_events
      (filter (fun r => w < getTicks r) (m_network_events q))
      (insert_each
         (retimed role w <$>
            filter (fun r => getTicks r <= w) (m_network_events q)) q).
Proof.
  unfold mergeNetworkData.
  destruct (m_network_events q) as [| ri rest] eqn:E.
  - simpl. destruct q; simpl in *. by subst.
  - pose proof (merge_loop_kept (ri :: rest) (mkMergeState q false (-9999) [])) as Hk.
    pose proof (merge_loop_queue (ri :: rest) (mkMergeState q false (-9999) [])) as Hq.
    destruct (merge_loop role w (ri :: rest) _) as [kept s]. simpl in *.
    by rewrite Hk, Hq.
Qed.

End Merge.

Section MergeRoles.

Variable w : Z.

(** The server never asks for a rewind. *)
Lemma merge_loop_server_needs_rewind pending s :
  ms_needs_rewind (merge_loop Server w pending s).2 = ms_needs_rewind s.
Proof.
  revert s. induction pending as [| ri rest IH]; intros s; [done |].
  rewrite merge_loop_cons. destruct (getTicks ri >? w); simpl; [apply IH |].
  by rewrite IH.
Qed.

(** On a client the two out-parameters follow the entries of the past. *)
Lemma merge_loop_client pending s :
  let past := filter (fun r => getTicks r < w) pending in
  let s' := (merge_loop Client w pending s).2 in
  ms_needs_rewind s' = ms_needs_rewind s || bool_decide (past <> [])
  /\ ms_rewind_ticks s'
     = foldl (fun rt r => Z.max rt (getTicks r)) (ms_rewind_ticks s) past.
Proof.
  revert s. induction pending as [| ri rest IH]; intros s.
  - simpl. by rewrite orb_false_r.
  - cbv zeta in *. rewrite merge_loop_cons, filter_cons.
    destruct (Z.gtb_spec (getTicks ri) w) as [Hfut | Hnow]; simpl.
    + case_decide; [lia |]. apply IH.
    + destruct (IH (merge_entry Client w ri s)) as [IH1 IH2].
      rewrite IH1, IH2. unfold merge_entry. simpl.
      destruct (Z.ltb_spec (getTicks ri) w) as [Hpast | Hnot];
        case_decide; try lia; simpl.
      * split; [by rewrite orb_true_r |]. f_equal.
        destruct (Z.gtb_spec (getTicks ri) (ms_rewind_ticks s)); lia.
      * done.
Qed.

Lemma foldl_max_spec (l : list RewindInfo) (rt0 : Z) :
  let rt := foldl (fun rt r => Z.max rt (getTicks r)) rt0 l in
  rt0 <= rt
  /\ (forall r, r ∈ l -> getTicks r <= rt)
  /\ (rt = rt0 \/ exists r, r ∈ l /\ getTicks r = rt).
Proof.
  revert rt0. induction l as [| a l IH]; intros rt0; simpl.
  - split_and!; [lia | | by left]. intros r Hr. by apply elem_of_nil in Hr.
  - destruct (IH (Z.max rt0 (getTicks a))) as (H1 & H2 & H3).
    split_and!; [lia | |].
    + intros r Hr. apply elem_of_cons in Hr as [-> | Hr]; [lia | by apply H2].
    + destruct H3 as [H3 | (r & Hr & H3)].
      * destruct (Z.max_spec rt0 (getTicks a)) as [[_ Hm] | [_ Hm]].
        -- right. exists a. split; [left | lia].
        -- left. lia.
      * right. exists r. split; [by right | done].
Qed.

End MergeRoles.

Section MergeFacts.

Lemma insert_each_permutation l q :
  m_all_rewind_info (insert_each l q) ≡ₚ l ++ m_all_rewind_info q.
Proof.
  revert q. induction l as [| ri l IH]; intros q; [done |].
  unfold insert_each in *. simpl foldl. rewrite IH. simpl.
  unfold insert_before. rewrite <- Permutation_middle.
  rewrite take_drop. by rewrite Permutation_middle.
Qed.

Lemma filter_all_future (w : Z) (l : list RewindInfo) :
  Forall (fun r => w < getTicks r) l ->
  filter (fun r => w < getTicks r) l = l
  /\ filter (fun r => getTicks r <= w) l = []
  /\ filter (fun r => getTicks r < w) l = [].
Proof.
  induction 1 as [| r l Hr Hl (IH1 & IH2 & IH3)]; [done |].
  rewrite !filter_cons. repeat case_decide; try lia.
  by rewrite IH1, IH2, IH3.
Qed.

Lemma retimed_server_ticks (w : Z) (ri : RewindInfo) :
  getTicks ri <= w -> getTicks (retimed Server w ri) = w.
Proof.
  intros Hle. unfold retimed. simpl.
  destruct (Z.ltb_spec (getTicks ri) w); simpl; [done | lia].
Qed.

Lemma set_network_events_same q :
  set_network_events (m_network_events q) q = q.
Proof. by destruct q. Qed.

End MergeFacts.

(** X18. On a client, without an inbox entry of tick < world_ticks
    mergeNetworkData leaves needs_rewind false.  With one it sets
    needs_rewind; rewind_ticks is then at least -9999, no past entry has a
    larger tick, and rewind_ticks is -9999 or the tick of a past entry.
    Whenever some past entry has a tick of -9999 or more, rewind_ticks is
    the maximum tick among the past entries. *)
Theorem client_merge_rewinds_to_latest_past_tick (world_ticks rewind_ticks0 : Z)
    (q : RewindQueue) :
  let past := filter (fun r => getTicks r < world_ticks) (m_network_events q) in
  let res := mergeNetworkData Client world_ticks rewind_ticks0 q in
  (past = [] -> ms_needs_rewind res = false)
  /\ (past <> [] ->
      ms_needs_rewind res = true
      /\ -9999 <= ms_rewind_ticks res
      /\ (forall r, r ∈ past -> getTicks r <= ms_rewind_ticks res)
      /\ (ms_rewind_ticks res = -9999
          \/ exists r, r ∈ past /\ getTicks r = ms_rewind_ticks res))
  /\ ((exists r, r ∈ past /\ -9999 <= getTicks r) ->
      ms_needs_rewind res = true /\ is_max_tick (ms_rewind_ticks res) past).
Proof.
  intros past res.
  assert (Hres : ms_needs_rewind res = bool_decide (past <> [])
                 /\ (past <> [] ->
                      ms_rewind_ticks res
                      = foldl (fun rt r => Z.max rt (getTicks r)) (-9999) past)).
  { subst res past. unfold mergeNetworkData.
    destruct (m_network_events q) as [| ri rest] eqn:E; [done |].
    pose proof (merge_loop_client world_ticks (ri :: rest)
                  (mkMergeState q false (-9999) [])) as [H1 H2].
    destruct (merge_loop Client world_ticks (ri :: rest) _) as [kept s].
    simpl in *. by rewrite H1, H2. }
  destruct Hres as [Hneeds Hticks].
  assert (Hpast : past <> [] ->
      ms_needs_rewind res = true
      /\ -9999 <= ms_rewind_ticks res
      /\ (forall r, r ∈ past -> getTicks r <= ms_rewind_ticks res)
      /\ (ms_rewind_ticks res = -9999
          \/ exists r, r ∈ past /\ getTicks r = ms_rewind_ticks res)).
  { intros Hne. rewrite Hneeds, (Hticks Hne).
    split; [by apply bool_decide_eq_true |]. apply foldl_max_spec. }
  split_and!; [| done |].
  - intros Hnil. rewrite Hneeds. apply bool_decide_eq_false. by intros [].
  - intros (r & Hr & Hlow).
    assert (Hne : past <> []) by (intros Hnil; rewrite Hnil in Hr; by apply elem_of_nil in Hr).
    destruct (Hpast Hne) as (Hn & _ & Hub & Hhit).
    split; [done |]. split; [| done].
    destruct Hhit as [Hmin | Hhit]; [| done].
    exists r. split; [done |]. specialize (Hub r Hr). lia.
Qed.

Lemma client_merge_witness :
  ms_needs_rewind
    (mergeNetworkData Client 10 0
       (mkRewindQueue [RewindInfoEvent 3 1 0 true; RewindInfoState 7 0 1 true]
                      [] 0)) = true
  /\ is_max_tick
       (ms_rewind_ticks
          (mergeNetworkData Client 10 0
             (mkRewindQueue
                [RewindInfoEvent 3 1 0 true; RewindInfoState 7 0 1 true] [] 0)))
       (filter (fun r => getTicks r < 10)
          [RewindInfoEvent 3 1 0 true; RewindInfoState 7 0 1 true])
  /\ ms_rewind_ticks
       (mergeNetworkData Client 10 0
          (mkRewindQueue [RewindInfoEvent 3 1 0 true; RewindInfoState 7 0 1 true]
                         [] 0)) = 7.
Proof.
  destruct (client_merge_rewinds_to_latest_past_tick 10 0
              (mkRewindQueue [RewindInfoEvent 3 1 0 true; RewindInfoState 7 0 1 true]
                             [] 0)) as (_ & _ & H).
  destruct H as [Hn Hm].
  - exists (RewindInfoEvent 3 1 0 true). split; [| vm_compute; discriminate].
    vm_compute. left.
  - split; [exact Hn |]. split; [exact Hm | reflexivity].
Defined.

(** C4. The claim asks for the maximum tick among the past entries; the
    code starts its search for it at -9999 and so misses a past entry
    whose tick is below that.  On a client with world_ticks 0 and one
    inbox Event at tick -10000, needs_rewind is set, the maximum tick
    among the past entries is -10000, and rewind_ticks is -9999, the tick
    of no past entry. *)
Theorem client_rewind_ticks_misses_tick_below_minus_9999 :
  ms_needs_rewind
    (mergeNetworkData Client 0 0
       (mkRewindQueue [RewindInfoEvent (-10000) 1 0 true] [] 0)) = true
  /\ is_max_tick (-10000)
       (filter (fun r => getTicks r < 0) [RewindInfoEvent (-10000) 1 0 true])
  /\ ms_rewind_ticks
       (mergeNetworkData Client 0 0
          (mkRewindQueue [RewindInfoEvent (-10000) 1 0 true] [] 0)) = -9999
  /\ ~ is_max_tick
         (ms_rewind_ticks
            (mergeNetworkData Client 0 0
               (mkRewindQueue [RewindInfoEvent (-10000) 1 0 true] [] 0)))
         (filter (fun r => getTicks r < 0) [RewindInfoEvent (-10000) 1 0 true]).
Proof.
  split_and!; [reflexivity | | reflexivity |].
  - split.
    + exists (RewindInfoEvent (-10000) 1 0 true). split; [| reflexivity].
      vm_compute. left.
    + intros r Hr. apply list_elem_of_filter in Hr as [_ Hr].
      apply list_elem_of_singleton in Hr. subst r. vm_compute. discriminate.
  - intros [(r & Hr & Ht) _].
    apply list_elem_of_filter in Hr as [_ Hr].
    apply list_elem_of_singleton in Hr. subst r. vm_compute in Ht. discriminate.
Qed.

(** C5. On the server mergeNetworkData never asks for a rewind, and every
    drained entry is handed to insertRewindInfo with the tick world_ticks:
    an entry with a smaller tick is the same record with its tick set to
    world_ticks.  The main log ends up with exactly these records added. *)
Theorem server_merge_retimes_late_entries (world_ticks rewind_ticks0 : Z)
    (q : RewindQueue) :
  let drained :=
    filter (fun r => getTicks r <= world_ticks) (m_network_events q) in
  let inserted := retimed Server world_ticks <$> drained in
  let res := mergeNetworkData Server world_ticks rewind_ticks0 q in
  ms_needs_rewind res = false
  /\ ms_queue res
     = set_network_events
         (filter (fun r => world_ticks < getTicks r) (m_network_events q))
         (insert_each inserted q)
  /\ m_all_rewind_info (ms_queue res) ≡ₚ inserted ++ m_all_rewind_info q
  /\ Forall (fun r => getTicks r = world_ticks) inserted
  /\ Forall (fun r => getTicks r < world_ticks ->
                      retimed Server world_ticks r = setTicks r world_ticks)
            drained.
Proof.
  intros drained inserted res. split_and!.
  - subst res. unfold mergeNetworkData.
    destruct (m_network_events q) as [| ri rest]; [done |].
    pose proof (merge_loop_server_needs_rewind world_ticks (ri :: rest)
                  (mkMergeState q false (-9999) [])) as H.
    by destruct (merge_loop Server world_ticks (ri :: rest) _).
  - apply mergeNetworkData_queue.
  - subst res. rewrite mergeNetworkData_queue. simpl.
    apply insert_each_permutation.
  - apply Forall_fmap, Forall_forall. intros r Hr.
    apply list_elem_of_filter in Hr as [Hr _]. simpl.
    by apply retimed_server_ticks.
  - apply Forall_forall. intros r _ Hlt. unfold retimed. simpl.
    destruct (Z.ltb_spec (getTicks r) world_ticks); [done | lia].
Qed.

(** C8. mergeNetworkData takes out of the inbox exactly the entries with
    tick <= world_ticks, which are the records that reach the main log,
    and leaves the entries with tick > world_ticks in the inbox, in their
    order.  If the inbox is not empty and holds only entries with
    tick > world_ticks, the call changes nothing: main log, Cursor and
    inbox are as before, and the inbox is still not empty. *)
Theorem merge_drains_up_to_world_ticks (role : Role)
    (world_ticks rewind_ticks0 : Z) (q : RewindQueue) :
  let drained :=
    filter (fun r => getTicks r <= world_ticks) (m_network_events q) in
  let res := mergeNetworkData role world_ticks rewind_ticks0 q in
  m_network_events (ms_queue res)
    = filter (fun r => world_ticks < getTicks r) (m_network_events q)
  /\ m_all_rewind_info (ms_queue res)
     = m_all_rewind_info (insert_each (retimed role world_ticks <$> drained) q)
  /\ m_all_rewind_info (ms_queue res)
       ≡ₚ (retimed role world_ticks <$> drained) ++ m_all_rewind_info q
  /\ (m_network_events q <> [] ->
      Forall (fun r => world_ticks < getTicks r) (m_network_events q) ->
      ms_queue res = q /\ m_network_events (ms_queue res) <> []).
Proof.
  intros drained res. subst res. rewrite mergeNetworkData_queue.
  fold drained. simpl. split_and!; [done | done | |].
  - apply insert_each_permutation.
  - intros Hne Hfut. subst drained.
    destruct (filter_all_future world_ticks _ Hfut) as (-> & -> & _).
    simpl. by rewrite set_network_events_same.
Qed.

Lemma merge_drains_witness :
  ms_queue
    (mergeNetworkData Client 10 0
       (mkRewindQueue [RewindInfoEvent 11 1 0 true; RewindInfoState 12 0 1 true]
                      [RewindInfoState 0 0 2 true] 1))
  = mkRewindQueue [RewindInfoEvent 11 1 0 true; RewindInfoState 12 0 1 true]
                  [RewindInfoState 0 0 2 true] 1
  /\ m_network_events
       (ms_queue
          (mergeNetworkData Client 10 0
             (mkRewindQueue
                [RewindInfoEvent 11 1 0 true; RewindInfoState 12 0 1 true]
                [RewindInfoState 0 0 2 true] 1))) <> [].
Proof.
  refine (proj2 (proj2 (proj2 (merge_drains_up_to_world_ticks Client 10 0
            (mkRewindQueue [RewindInfoEvent 11 1 0 true; RewindInfoState 12 0 1 true]
                           [RewindInfoState 0 0 2 true] 1)))) _ _).
  - discriminate.
  - repeat constructor.
Defined.

(** ** The forward walk of replayAllEvents *)

Section Replay.

Lemma replay_loop_spec t (l : list RewindInfo) :
  let n := (replay_loop t l).1 in
  (n <= length l)%nat
  /\ Forall (fun r => getTicks r = t) (take n l)
  /\ match l !! n with Some r => getTicks r <> t | None => True end
  /\ (replay_loop t l).2
     = CallRewind <$> filter (fun r => isEvent r = true) (take n l).
Proof.
  induction l as [| ri l IH]; simpl; [done |].
  destruct (Z.eqb_spec (getTicks ri) t) as [Heq | Hne]; simpl;
    [| split_and!; [lia | done | done | done]].
  destruct (replay_loop t l) as [n effs]. simpl in *.
  destruct IH as (H1 & H2 & H3 & H4).
  split_and!; [lia | by constructor | done |].
  rewrite filter_cons, H4. destruct (isEvent ri); by case_decide.
Qed.

End Replay.

(** C6. replayAllEvents(ticks) moves the Cursor forward over the records
    with that tick that start at the Cursor, States and Events alike, and
    stops in front of the first record with another tick or at
    end-of-log; the calls it makes are rewind() on the Events among the
    records it passed, in log order, and nothing else.  Log and inbox are
    left as they are. *)
Theorem replayAllEvents_replays_events_of_tick (ticks : Z) (q : RewindQueue) :
  let q' := (replayAllEvents ticks q).1 in
  let passed :=
    take (m_current q' - m_current q) (drop (m_current q) (m_all_rewind_info q)) in
  (m_current q <= m_current q')%nat
  /\ (m_current q' <= Nat.max (m_current q) (end_of_log q))%nat
  /\ length passed = (m_current q' - m_current q)%nat
  /\ Forall (fun r => getTicks r = ticks) passed
  /\ match m_all_rewind_info q !! m_current q' with
     | Some r => getTicks r <> ticks
     | None => True
     end
  /\ (replayAllEvents ticks q).2
     = CallRewind <$> filter (fun r => isEvent r = true) passed
  /\ m_all_rewind_info q' = m_all_rewind_info q
  /\ m_network_events q' = m_network_events q.
Proof.
  unfold replayAllEvents.
  pose proof (replay_loop_spec ticks (drop (m_current q) (m_all_rewind_info q)))
    as (H1 & H2 & H3 & H4).
  destruct (replay_loop ticks _) as [n effs]. simpl in *.
  replace (m_current q + n - m_current q)%nat with n by lia.
  rewrite lookup_drop in H3.
  rewrite length_drop in H1. unfold end_of_log.
  split_and!; try done; [lia | lia |].
  rewrite length_take, length_drop. lia.
Qed.

(** C7. If the Cursor is at end-of-log when a record is inserted, then
    after the insertion the Cursor is at the position of the new record
    (the log is the old log with the new record put in at the Cursor),
    hasMoreRewindInfo() is true and getCurrent() is the new record. *)
Theorem insert_at_end_of_log_repairs_cursor (ri : RewindInfo) (q : RewindQueue) :
  m_current q = end_of_log q ->
  let q' := insertRewindInfo ri q in
  m_all_rewind_info q'
    = take (m_current q') (m_all_rewind_info q)
      ++ ri :: drop (m_current q') (m_all_rewind_info q)
  /\ (m_current q' <= end_of_log q)%nat
  /\ hasMoreRewindInfo q' = true
  /\ getCurrent q' = Some ri.
Proof.
  intros Hend q'.
  assert (Hcur : m_current q' = insert_position (m_all_rewind_info q) ri).
  { subst q'. unfold insertRewindInfo. simpl. unfold end_of_log in Hend.
    by rewrite Hend, Nat.eqb_refl. }
  pose proof (insert_position_le (m_all_rewind_info q) ri) as Hle.
  split_and!.
  - by rewrite Hcur.
  - unfold end_of_log. lia.
  - unfold hasMoreRewindInfo, end_of_log. rewrite Hcur.
    subst q'. simpl. rewrite length_insert_before.
    apply negb_true_iff, Nat.eqb_neq. lia.
  - unfold getCurrent. rewrite Hcur. subst q'. simpl.
    rewrite lookup_insert_before by done.
    case_decide; [lia |]. by case_decide.
Qed.

(** The scenario of the unit test: an Event at tick 1 is added and
    consumed, then an Event at tick 2 is added. *)
Lemma insert_at_end_of_log_witness :
  getCurrent
    (addLocalEvent 0 0 true 2
       (replayAllEvents 1 (addLocalEvent 0 0 true 1 new_queue)).1)
  = Some (RewindInfoEvent 2 0 0 true).
Proof.
  refine (proj2 (proj2 (proj2
    (insert_at_end_of_log_repairs_cursor (RewindInfoEvent 2 0 0 true)
       (replayAllEvents 1 (addLocalEvent 0 0 true 1 new_queue)).1 _)))).
  reflexivity.
Defined.

(** C10. isEmpty() is the negation of hasMoreRewindInfo() in every state
    of the queue, reachable or not, and both only test whether the Cursor
    is at end-of-log.  A fresh queue and a queue whose only record has
    been consumed are both reachable and both empty for isEmpty(). *)
Theorem isEmpty_is_not_hasMoreRewindInfo :
  (forall q : RewindQueue,
     isEmpty q = negb (hasMoreRewindInfo q)
     /\ (isEmpty q = true <-> m_current q = end_of_log q))
  /\ (forall role : Role,
        reachable role new_queue
        /\ m_all_rewind_info new_queue = []
        /\ isEmpty new_queue = true)
  /\ (forall (role : Role) (r b : nat) (c : bool) (t : Z),
        let q := (replayAllEvents t (addLocalEvent r b c t new_queue)).1 in
        reachable role q
        /\ m_all_rewind_info q = [RewindInfoEvent t r b c]
        /\ isEmpty q = true).
Proof.
  split_and!.
  - intros q. unfold isEmpty, hasMoreRewindInfo. rewrite negb_involutive.
    split; [done |]. apply Nat.eqb_eq.
  - intros role. split_and!; [| done | done]. by exists [].
  - intros role r b c t q. split_and!.
    + by exists [OpAddLocalEvent r b c t; OpReplayAllEvents t].
    + subst q. by rewrite (proj1 (replayAllEvents_log _ _)).
    + subst q. unfold isEmpty, end_of_log, replayAllEvents.
      cbn. rewrite Z.eqb_refl. done.
Qed.


(** * Further properties of the queue *)

(** ** Insertion *)

Section InsertionFacts.

Lemma insert_before_permutation (l : list RewindInfo) p ri :
  insert_before p ri l ≡ₚ ri :: l.
Proof.
  unfold insert_before. rewrite <- Permutation_middle. by rewrite take_drop.
Qed.

Lemma log_ordered_tail x l : log_ordered (x :: l) -> log_ordered l.
Proof.
  intros [Ht Hs]. split.
  - intros i j a b Hij Ha Hb. apply (Ht (S i) (S j)); [lia | done | done].
  - intros i j a b Ha Hb Heq Hsa Heb.
    pose proof (Hs (S i) (S j) a b Ha Hb Heq Hsa Heb). lia.
Qed.

(** The index form of the ordering and the pairwise form agree. *)
Lemma log_ordered_sorted l : log_ordered l -> StronglySorted rec_le l.
Proof.
  induction l as [| x l IH]; intros Ho; [constructor |].
  apply StronglySorted_cons. split; [| by eapply IH, log_ordered_tail].
  apply Forall_lookup. intros j y Hy. destruct Ho as [Ht Hs].
  pose proof (Ht 0%nat (S j) x y) as Hle. simpl in Hle.
  specialize (Hle ltac:(lia) eq_refl Hy).
  unfold rec_le. destruct (decide (getTicks x = getTicks y)) as [Heq | Hne];
    [| left; lia].
  right. split; [done |]. rewrite (isEvent_negb_isState y).
  destruct (isState x) eqn:Hx; [by left |]. right.
  destruct (isState y) eqn:Hsy; [| done]. exfalso.
  pose proof (Hs (S j) 0%nat y x Hy eq_refl (eq_sym Heq) Hsy) as Hlt.
  rewrite isEvent_negb_isState, Hx in Hlt. specialize (Hlt eq_refl). lia.
Qed.

End InsertionFacts.

(** X1. insertRewindInfo adds the record to the main log and nothing else:
    the new log has the records of the old one plus the new record, the
    inbox is untouched. *)
Theorem insertRewindInfo_adds_exactly_one_record (ri : RewindInfo)
    (q : RewindQueue) :
  m_all_rewind_info (insertRewindInfo ri q) ≡ₚ ri :: m_all_rewind_info q
  /\ length (m_all_rewind_info (insertRewindInfo ri q))
     = S (length (m_all_rewind_info q))
  /\ m_network_events (insertRewindInfo ri q) = m_network_events q.
Proof.
  split_and!; [apply insert_before_permutation | | done].
  simpl. apply length_insert_before.
Qed.

(** X2. In an ordered log the new record is put at the first place it may
    take: every record in front of it has a smaller tick, or is a State of
    its tick while it is an Event; every record behind it has a larger
    tick, or its tick and is an Event or follows a new State.  So a new
    State stands in front of all records of its tick, and a new Event
    between the States and the Events of its tick. *)
Theorem insertRewindInfo_takes_first_admissible_place (ri : RewindInfo)
    (q : RewindQueue) :
  log_ordered (m_all_rewind_info q) ->
  let p := insert_position (m_all_rewind_info q) ri in
  m_all_rewind_info (insertRewindInfo ri q)
    = take p (m_all_rewind_info q) ++ ri :: drop p (m_all_rewind_info q)
  /\ Forall (fun x => getTicks x < getTicks ri
                      \/ (getTicks x = getTicks ri
                          /\ isState x = true /\ isEvent ri = true))
            (take p (m_all_rewind_info q))
  /\ Forall (fun x => getTicks ri < getTicks x
                      \/ (getTicks x = getTicks ri
                          /\ (isEvent x = true \/ isState ri = true)))
            (drop p (m_all_rewind_info q)).
Proof.
  intros Ho p. apply log_ordered_sorted in Ho.
  set (l := m_all_rewind_info q) in *.
  destruct (scan_back_spec l ri (length l)) as (Hle & Hafter & Hprev); [lia |].
  fold (insert_position l ri) in Hle, Hafter, Hprev. fold p in Hle, Hafter, Hprev.
  assert (Hstrict : forall x, stops_scan x ri = true ->
            getTicks x < getTicks ri
            \/ (getTicks x = getTicks ri /\ isState x = true /\ isEvent ri = true)).
  { intros x Hx. unfold stops_scan in Hx.
    apply orb_true_iff in Hx as [Hx | Hx]; [left; lia |].
    apply andb_true_iff in Hx as [Hx H3]. apply andb_true_iff in Hx as [H1 H2].
    right. split_and!; [lia | done | done]. }
  split_and!; [done | |].
  - apply Forall_lookup. intros k x Hk.
    apply lookup_take_Some in Hk as [Hk Hkp].
    destruct p as [| j] eqn:Ep; [lia |].
    destruct (lookup_lt_is_Some_2 l j) as [prev Hj]; [lia |].
    pose proof (Hstrict prev (Hprev j prev eq_refl Hj)) as Hp.
    destruct (decide (k = j)) as [-> | Hne]; [by replace x with prev by congruence |].
    assert (Hxp : rec_le x prev).
    { apply (StronglySorted_lookup_lt l k j); [done | lia | done | done]. }
    unfold rec_le in Hxp. rewrite (isEvent_negb_isState prev) in Hxp.
    destruct Hp as [Hp | (Hp1 & Hp2 & Hp3)]; [left; lia |].
    rewrite Hp2 in Hxp. simpl in Hxp.
    destruct Hxp as [Hxp | [Hxp [Hxs | ?]]]; [left; lia | | done].
    right. split_and!; [lia | done | done].
  - apply Forall_lookup. intros k x Hk. rewrite lookup_drop in Hk.
    assert (Hx : stops_scan x ri = false).
    { apply (Hafter (p + k)%nat); [| done]. apply lookup_lt_Some in Hk. lia. }
    apply stops_scan_false in Hx. unfold rec_le in Hx.
    destruct Hx as [Hx | [Hx1 Hx2]]; [by left |].
    right. split; [done |]. tauto.
Qed.

Lemma insertRewindInfo_first_place_witness :
  m_all_rewind_info
    (addLocalEvent 1 0 true 5
       (addLocalEvent 1 1 true 5 (addLocalState 0 2 true 5
          (addLocalState 0 3 true 1 new_queue))))
  = [RewindInfoState 1 0 3 true; RewindInfoState 5 0 2 true;
     RewindInfoEvent 5 1 0 true; RewindInfoEvent 5 1 1 true].
Proof.
  refine (proj1 (insertRewindInfo_takes_first_admissible_place
            (RewindInfoEvent 5 1 0 true)
            (addLocalEvent 1 1 true 5 (addLocalState 0 2 true 5
               (addLocalState 0 3 true 1 new_queue))) _)).
  apply sorted_log_ordered. vm_compute. repeat constructor; vm_compute; tauto.
Defined.

(** X3. Two Events of one tick inserted one after the other end up in
    reverse insertion order: the second one stands directly in front of
    the first one. *)
Theorem same_tick_events_reverse_insertion_order (q : RewindQueue)
    (a b : RewindInfo) :
  isEvent a = true -> isEvent b = true -> getTicks a = getTicks b ->
  let l := m_all_rewind_info q in
  let p := insert_position l a in
  m_all_rewind_info (insertRewindInfo b (insertRewindInfo a q))
    = take p l ++ b :: a :: drop p l.
Proof.
  intros Ha Hb Ht l p.
  assert (Hk : m_kind a = m_kind b).
  { unfold isEvent in Ha, Hb. by destruct (m_kind a), (m_kind b). }
  assert (Hp : (p <= length l)%nat) by apply insert_position_le.
  assert (Hlen : length (take p l) = p) by (apply length_take_le; lia).
  change (m_all_rewind_info (insertRewindInfo b (insertRewindInfo a q)))
    with (insert_before (insert_position (insert_before p a l) b) b
            (insert_before p a l)).
  unfold p. rewrite (insert_same_tick_same_kind l a b Ht Hk).
  fold p. unfold insert_before.
  rewrite take_app_length' by done.
  by rewrite drop_app_length' by done.
Qed.

Lemma same_tick_events_witness :
  m_all_rewind_info
    (addLocalEvent 1 2 true 5 (addLocalEvent 1 1 false 5
       (addLocalEvent 1 3 true 7 (addLocalState 0 4 true 5 new_queue))))
  = [RewindInfoState 5 0 4 true; RewindInfoEvent 5 1 2 true;
     RewindInfoEvent 5 1 1 false; RewindInfoEvent 7 1 3 true].
Proof.
  refine (same_tick_events_reverse_insertion_order
            (addLocalEvent 1 3 true 7 (addLocalState 0 4 true 5 new_queue))
            (RewindInfoEvent 5 1 1 false) (RewindInfoEvent 5 1 2 true) _ _ _);
    reflexivity.
Defined.

(** ** The Cursor *)

Section CursorFacts.

Lemma insertRewindInfo_current_lt ri q :
  (m_current q <= end_of_log q)%nat ->
  (m_current (insertRewindInfo ri q) < end_of_log (insertRewindInfo ri q))%nat.
Proof.
  unfold end_of_log. intros Hcur. simpl. rewrite length_insert_before.
  pose proof (insert_position_le (m_all_rewind_info q) ri) as Hp.
  destruct (Nat.eqb_spec (m_current q) (length (m_all_rewind_info q))); [lia |].
  destruct (Nat.leb_spec (insert_position (m_all_rewind_info q) ri) (m_current q));
    lia.
Qed.

Lemma insertRewindInfo_getCurrent ri q :
  (m_current q < end_of_log q)%nat ->
  getCurrent (insertRewindInfo ri q) = getCurrent q.
Proof.
  unfold end_of_log, getCurrent. intros Hcur. simpl.
  pose proof (insert_position_le (m_all_rewind_info q) ri) as Hp.
  destruct (Nat.eqb_spec (m_current q) (length (m_all_rewind_info q))); [lia |].
  rewrite lookup_insert_before by done.
  destruct (Nat.leb_spec (insert_position (m_all_rewind_info q) ri) (m_current q));
    repeat case_decide; try lia; done.
Qed.

Lemma insert_each_current l q :
  (m_current q < end_of_log q)%nat ->
  (m_current (insert_each l q) < end_of_log (insert_each l q))%nat
  /\ getCurrent (insert_each l q) = getCurrent q.
Proof.
  revert q. induction l as [| ri l IH]; intros q Hcur; [done |].
  unfold insert_each in *. simpl foldl.
  destruct (IH (insertRewindInfo ri q)) as [IH1 IH2].
  - apply insertRewindInfo_current_lt. lia.
  - split; [done |]. rewrite IH2. by apply insertRewindInfo_getCurrent.
Qed.

Lemma insert_each_current_le l q :
  (m_current q <= end_of_log q)%nat ->
  (m_current (insert_each l q) <= end_of_log (insert_each l q))%nat
  /\ (l <> [] ->
      (m_current (insert_each l q) < end_of_log (insert_each l q))%nat).
Proof.
  intros Hcur. destruct l as [| ri l]; [done |].
  unfold insert_each. simpl foldl.
  destruct (insert_each_current l (insertRewindInfo ri q)) as [H _].
  - by apply insertRewindInfo_current_lt.
  - unfold insert_each in H. split; [lia | done].
Qed.

(** Walking backward from [cur], either a first target is met or there is
    none down to the first record. *)
Lemma first_target_back (l : list RewindInfo) u cur :
  (exists k st, (k <= cur)%nat /\ l !! k = Some st
      /\ is_rewind_target u st = true
      /\ forall j x, (k < j <= cur)%nat -> l !! j = Some x ->
                      is_rewind_target u x = false)
  \/ (forall j x, (j <= cur)%nat -> l !! j = Some x ->
                  is_rewind_target u x = false).
Proof.
  induction cur as [| c IH].
  - destruct (l !! 0%nat) as [x |] eqn:E.
    + destruct (is_rewind_target u x) eqn:Hx.
      * left. exists 0%nat, x. split_and!; [lia | done | done | intros; lia].
      * right. intros j y Hj Hy. assert (j = 0%nat) as -> by lia. congruence.
    + right. intros j y Hj Hy. assert (j = 0%nat) as -> by lia. congruence.
  - assert (Hcase : (exists x, l !! S c = Some x /\ is_rewind_target u x = true)
                    \/ (forall x, l !! S c = Some x -> is_rewind_target u x = false)).
    { destruct (l !! S c) as [x |]; [| by right].
      destruct (is_rewind_target u x) eqn:Hx; [left; eauto |].
      right. by intros y [= <-]. }
    destruct Hcase as [(x & Hx & Ht) | Hno].
    + left. exists (S c), x. split_and!; [lia | done | done | intros; lia].
    + destruct IH as [(k & st & Hk & Hst & Ht & Hbetween) | Hnone].
      * left. exists k, st. split_and!; [lia | done | done |].
        intros j y Hj Hy. destruct (decide (j = S c)) as [-> | Hne]; [by apply Hno |].
        apply (Hbetween j); [lia | done].
      * right. intros j y Hj Hy.
        destruct (decide (j = S c)) as [-> | Hne]; [by apply Hno |].
        apply (Hnone j); [lia | done].
Qed.

Lemma undo_start_lt q :
  m_all_rewind_info q <> [] -> (m_current q <= end_of_log q)%nat ->
  (undo_start q < length (m_all_rewind_info q))%nat.
Proof.
  unfold undo_start, end_of_log. intros Hne Hcur.
  destruct (m_all_rewind_info q); [done |]. simpl in *.
  destruct (m_current q); lia.
Qed.

End CursorFacts.

(** The three ways a call of undoUntil can end. *)
Lemma undoUntil_three_ways (undo_ticks : Z) (q : RewindQueue) :
  (m_current q <= end_of_log q)%nat ->
  (m_all_rewind_info q = [] /\ undoUntil undo_ticks q = UndefinedBehaviour)
  \/ (exists k st,
        (k <= undo_start q)%nat
        /\ m_all_rewind_info q !! k = Some st
        /\ is_rewind_target undo_ticks st = true
        /\ (forall j x, (k < j <= undo_start q)%nat ->
                        m_all_rewind_info q !! j = Some x ->
                        is_rewind_target undo_ticks x = false)
        /\ undoUntil undo_ticks q
           = Returns {| ur_queue := with_current k q;
                        ur_return := getTicks st;
                        ur_effects :=
                          CallUndo <$> walked_back k (undo_start q)
                                         (m_all_rewind_info q) |})
  \/ (m_all_rewind_info q <> []
      /\ (forall j x, (j <= undo_start q)%nat ->
                      m_all_rewind_info q !! j = Some x ->
                      is_rewind_target undo_ticks x = false)
      /\ undoUntil undo_ticks q
         = Returns {| ur_queue := with_current (end_of_log q) q;
                      ur_return := -1;
                      ur_effects :=
                        (CallUndo <$> walked_back 0 (undo_start q)
                                        (m_all_rewind_info q))
                        ++ [LogError undo_ticks] |}).
Proof.
  intros Hcur.
  destruct (m_all_rewind_info q) as [| r0 l0] eqn:El.
  - left. split; [done |]. unfold undoUntil. rewrite El.
    unfold undo_start, end_of_log in *. rewrite El in Hcur. simpl in Hcur.
    by replace (m_current q) with 0%nat by lia.
  - right. rewrite <- El.
    assert (Hne : m_all_rewind_info q <> []) by (by rewrite El).
    pose proof (undo_start_lt q Hne Hcur) as Hlt.
    destruct (first_target_back (m_all_rewind_info q) undo_ticks (undo_start q))
      as [(k & st & Hk & Hst & Ht & Hbetween) | Hnone].
    + left. exists k, st. split_and!; [done | done | done | done |].
      unfold undoUntil.
      by rewrite (undo_loop_found _ undo_ticks k st Hst Ht _ Hk Hlt Hbetween).
    + right. split_and!; [done | done |]. unfold undoUntil.
      by rewrite (undo_loop_not_found _ undo_ticks _ Hlt Hnone).
Qed.

(** X4. undoUntil on a queue with a valid Cursor ends in one of three
    ways.  On an empty log it dereferences end(), which is undefined.
    Otherwise it returns: either it stops on the first confirmed State
    with tick <= undo_ticks at or before the record in front of the
    Cursor (no record it walked over before is one), having called
    undo() on the records down to it, or there is
    no such State, and it returns -1 with the Cursor at end-of-log after
    undo() on every record in front of the Cursor and one error line.
    Log and inbox are never changed. *)
Theorem undoUntil_outcomes (undo_ticks : Z) (q : RewindQueue) :
  (m_current q <= end_of_log q)%nat ->
  (m_all_rewind_info q = [] /\ undoUntil undo_ticks q = UndefinedBehaviour)
  \/ (exists k st,
        (k <= undo_start q)%nat
        /\ m_all_rewind_info q !! k = Some st
        /\ is_rewind_target undo_ticks st = true
        /\ (forall j x, (k < j <= undo_start q)%nat ->
                        m_all_rewind_info q !! j = Some x ->
                        is_rewind_target undo_ticks x = false)
        /\ undoUntil undo_ticks q
           = Returns {| ur_queue := with_current k q;
                        ur_return := getTicks st;
                        ur_effects :=
                          CallUndo <$> walked_back k (undo_start q)
                                         (m_all_rewind_info q) |})
  \/ (m_all_rewind_info q <> []
      /\ (forall j x, (j <= undo_start q)%nat ->
                      m_all_rewind_info q !! j = Some x ->
                      is_rewind_target undo_ticks x = false)
      /\ undoUntil undo_ticks q
         = Returns {| ur_queue := with_current (end_of_log q) q;
                      ur_return := -1;
                      ur_effects :=
                        (CallUndo <$> walked_back 0 (undo_start q)
                                        (m_all_rewind_info q))
                        ++ [LogError undo_ticks] |}).
Proof. apply undoUntil_three_ways. Qed.

(** A walk that steps over an unconfirmed State and a confirmed State that
    is too late, and stops on the confirmed State at tick 3 although an
    older confirmed State lies further back. *)
Lemma undoUntil_outcomes_witness :
  exists k st,
    (forall j x, (k < j <= 4)%nat ->
       [RewindInfoState 0 0 0 true; RewindInfoState 3 0 1 true;
        RewindInfoState 4 0 2 false; RewindInfoEvent 4 1 3 true;
        RewindInfoState 6 0 4 true; RewindInfoEvent 6 1 5 true] !! j = Some x ->
       is_rewind_target 5 x = false)
    /\ is_rewind_target 5 st = true
    /\ undoUntil 5
         (mkRewindQueue []
            [RewindInfoState 0 0 0 true; RewindInfoState 3 0 1 true;
             RewindInfoState 4 0 2 false; RewindInfoEvent 4 1 3 true;
             RewindInfoState 6 0 4 true; RewindInfoEvent 6 1 5 true] 5)
       = Returns
           {| ur_queue :=
                mkRewindQueue []
                  [RewindInfoState 0 0 0 true; RewindInfoState 3 0 1 true;
                   RewindInfoState 4 0 2 false; RewindInfoEvent 4 1 3 true;
                   RewindInfoState 6 0 4 true; RewindInfoEvent 6 1 5 true] k;
              ur_return := getTicks st;
              ur_effects :=
                CallUndo <$>
                  walked_back k 4
                    [RewindInfoState 0 0 0 true; RewindInfoState 3 0 1 true;
                     RewindInfoState 4 0 2 false; RewindInfoEvent 4 1 3 true;
                     RewindInfoState 6 0 4 true; RewindInfoEvent 6 1 5 true] |}.
Proof.
  destruct (undoUntil_outcomes 5
              (mkRewindQueue []
                 [RewindInfoState 0 0 0 true; RewindInfoState 3 0 1 true;
                  RewindInfoState 4 0 2 false; RewindInfoEvent 4 1 3 true;
                  RewindInfoState 6 0 4 true; RewindInfoEvent 6 1 5 true] 5))
    as [[Hnil _] | [(k & st & _ & _ & Ht & Hfirst & Hrun) | (_ & Hnone & _)]].
  - vm_compute. lia.
  - discriminate Hnil.
  - exists k, st. split_and!; [exact Hfirst | exact Ht | exact Hrun].
  - exfalso. specialize (Hnone 1%nat (RewindInfoState 3 0 1 true)).
    assert (Hc : is_rewind_target 5 (RewindInfoState 3 0 1 true) = false).
    { apply Hnone; [vm_compute; lia | reflexivity]. }
    vm_compute in Hc. discriminate Hc.
Defined.

(** X5. If the first record of the log is a confirmed State with
    tick <= undo_ticks, undoUntil never gives up: it returns the tick of a
    confirmed State with tick <= undo_ticks, leaves the Cursor on that
    State, and logs no error. *)
Theorem undoUntil_succeeds_with_confirmed_first_state (undo_ticks : Z)
    (q : RewindQueue) (s0 : RewindInfo) :
  (m_current q <= end_of_log q)%nat ->
  m_all_rewind_info q !! 0%nat = Some s0 ->
  is_rewind_target undo_ticks s0 = true ->
  exists r st,
    undoUntil undo_ticks q = Returns r
    /\ getCurrent (ur_queue r) = Some st
    /\ isState st = true /\ isConfirmed st = true
    /\ ur_return r = getTicks st
    /\ ur_return r <= undo_ticks
    /\ LogError undo_ticks ∉ ur_effects r.
Proof.
  intros Hcur H0 Ht0.
  destruct (undoUntil_three_ways undo_ticks q Hcur)
    as [[Hnil _] | [(k & st & Hk & Hst & Ht & _ & Hrun) | (_ & Hnone & _)]].
  - by rewrite Hnil in H0.
  - eexists _, st. split; [exact Hrun |]. simpl.
    unfold is_rewind_target in Ht.
    apply andb_true_iff in Ht as [Ht H3]. apply andb_true_iff in Ht as [H1 H2].
    split_and!; [done | done | done | done | lia |].
    intros Hin. apply list_elem_of_fmap in Hin as (x & Hx & _). discriminate.
  - rewrite (Hnone 0%nat s0) in Ht0; [done | lia | done].
Qed.

Lemma undoUntil_succeeds_witness :
  exists r st,
    undoUntil 5 (mkRewindQueue []
                   [RewindInfoState 0 0 0 true; RewindInfoEvent 2 1 1 true] 2)
    = Returns r
    /\ getCurrent (ur_queue r) = Some st
    /\ isState st = true /\ isConfirmed st = true
    /\ ur_return r = getTicks st
    /\ ur_return r <= 5
    /\ LogError 5 ∉ ur_effects r.
Proof.
  refine (undoUntil_succeeds_with_confirmed_first_state 5
            (mkRewindQueue [] _ 2) (RewindInfoState 0 0 0 true) _ _ _).
  - vm_compute. lia.
  - reflexivity.
  - reflexivity.
Defined.

Section CursorInvariant.

Lemma mergeNetworkData_current role w rt0 q :
  m_current (ms_queue (mergeNetworkData role w rt0 q))
    = m_current (insert_each
        (retimed role w <$> filter (fun r => getTicks r <= w) (m_network_events q)) q)
  /\ end_of_log (ms_queue (mergeNetworkData role w rt0 q))
     = end_of_log (insert_each
        (retimed role w <$> filter (fun r => getTicks r <= w) (m_network_events q)) q)
  /\ getCurrent (ms_queue (mergeNetworkData role w rt0 q))
     = getCurrent (insert_each
        (retimed role w <$> filter (fun r => getTicks r <= w) (m_network_events q)) q).
Proof. by rewrite mergeNetworkData_queue. Qed.

Lemma step_current_valid role op q q' :
  step role op q = Returns q' ->
  (m_current q <= end_of_log q)%nat -> (m_current q' <= end_of_log q')%nat.
Proof.
  destruct op; simpl; intros Hstep Hcur;
    try (injection Hstep as <-);
    try (pose proof (insertRewindInfo_current_lt
                       (RewindInfoEvent ticks event_rewinder buffer confirmed) q Hcur);
         unfold addLocalEvent; lia);
    try (pose proof (insertRewindInfo_current_lt
                       (RewindInfoState ticks rewinder buffer confirmed) q Hcur);
         unfold addLocalState; lia);
    try done.
  - destruct (mergeNetworkData_current role world_ticks 0 q) as (-> & -> & _).
    by apply insert_each_current_le.
  - destruct (undoUntil_three_ways undo_ticks q Hcur)
      as [[_ Hub] | [(k & st & Hk & Hst & _ & _ & Hrun) | (Hne & _ & Hrun)]];
      rewrite ?Hub, ?Hrun in Hstep; simpl in Hstep; [done | |];
      injection Hstep as <-; unfold end_of_log; simpl; [| done].
    apply lookup_lt_Some in Hst. lia.
  - unfold replayAllEvents, end_of_log in *.
    pose proof (replay_loop_spec ticks (drop (m_current q) (m_all_rewind_info q)))
      as (Hn & _).
    destruct (replay_loop ticks _) as [n effs]. simpl in *.
    rewrite length_drop in Hn. lia.
Qed.

End CursorInvariant.

(** X6. The Cursor of a queue reached from a fresh one by any calls is
    always inside the log or at end-of-log, so getCurrent() finds a record
    exactly when hasMoreRewindInfo() is true. *)
Theorem reachable_cursor_is_valid role ops q :
  run role ops new_queue = Returns q ->
  (m_current q <= end_of_log q)%nat
  /\ (hasMoreRewindInfo q = true <-> is_Some (getCurrent q)).
Proof.
  intros Hrun.
  assert (Hinv : forall ops q0 q1, run role ops q0 = Returns q1 ->
            (m_current q0 <= end_of_log q0)%nat ->
            (m_current q1 <= end_of_log q1)%nat).
  { clear. intros ops. induction ops as [| op rest IH]; intros q0 q1 Hrun H0;
      simpl in Hrun.
    - by injection Hrun as <-.
    - destruct (step role op q0) as [q' | |] eqn:E; simpl in Hrun; try done.
      eapply IH; [done |]. by eapply step_current_valid. }
  assert (Hcur : (m_current q <= end_of_log q)%nat).
  { eapply Hinv; [done |]. vm_compute. lia. }
  split; [done |].
  unfold hasMoreRewindInfo, getCurrent, end_of_log in *.
  rewrite lookup_lt_is_Some, negb_true_iff, Nat.eqb_neq. lia.
Qed.

Lemma reachable_cursor_witness :
  (m_current
     (ms_queue (mergeNetworkData Client 3 0
        (addNetworkEvent 1 0 2 (addLocalState 0 0 true 0 new_queue))))
   <= end_of_log
        (ms_queue (mergeNetworkData Client 3 0
           (addNetworkEvent 1 0 2 (addLocalState 0 0 true 0 new_queue)))))%nat.
Proof.
  refine (proj1 (reachable_cursor_is_valid Client
            [OpAddLocalState 0 0 true 0; OpAddNetworkEvent 1 0 2;
             OpMergeNetworkData 3] _ _)).
  reflexivity.
Defined.

(** X7. An insertion never takes the Cursor off its record: when the
    Cursor is on a record, it is on the same record after
    insertRewindInfo, wherever the new record went. *)
Theorem insertRewindInfo_keeps_current_record (ri : RewindInfo) (q : RewindQueue) :
  (m_current q < end_of_log q)%nat ->
  getCurrent (insertRewindInfo ri q) = getCurrent q
  /\ hasMoreRewindInfo (insertRewindInfo ri q) = true.
Proof.
  intros Hcur. split; [by apply insertRewindInfo_getCurrent |].
  pose proof (insertRewindInfo_current_lt ri q ltac:(lia)) as Hlt.
  unfold hasMoreRewindInfo. apply negb_true_iff, Nat.eqb_neq. lia.
Qed.

Lemma insertRewindInfo_keeps_current_witness :
  getCurrent
    (addLocalState 0 1 true 5 (addLocalEvent 1 0 true 5 new_queue))
  = Some (RewindInfoEvent 5 1 0 true).
Proof.
  refine (proj1 (insertRewindInfo_keeps_current_record
            (RewindInfoState 5 0 1 true) (addLocalEvent 1 0 true 5 new_queue) _)).
  vm_compute. lia.
Defined.

(** X8. mergeNetworkData never takes the Cursor off its record either:
    with the Cursor on a record before the call, it is on the same record
    after it. *)
Theorem mergeNetworkData_keeps_current_record (role : Role)
    (world_ticks rewind_ticks0 : Z) (q : RewindQueue) :
  (m_current q < end_of_log q)%nat ->
  getCurrent (ms_queue (mergeNetworkData role world_ticks rewind_ticks0 q))
    = getCurrent q
  /\ hasMoreRewindInfo
       (ms_queue (mergeNetworkData role world_ticks rewind_ticks0 q)) = true.
Proof.
  intros Hcur.
  destruct (mergeNetworkData_current role world_ticks rewind_ticks0 q)
    as (Hc & He & Hg).
  destruct (insert_each_current
              (retimed role world_ticks <$>
                 filter (fun r => getTicks r <= world_ticks) (m_network_events q))
              q Hcur) as [Hlt Hsame].
  split; [by rewrite Hg |].
  unfold hasMoreRewindInfo. rewrite Hc, He.
  apply negb_true_iff, Nat.eqb_neq. lia.
Qed.

Lemma mergeNetworkData_keeps_current_witness :
  getCurrent
    (ms_queue (mergeNetworkData Client 9 0
       (mkRewindQueue [RewindInfoState 2 0 1 true; RewindInfoEvent 8 1 2 true]
                      [RewindInfoState 0 0 0 true; RewindInfoEvent 5 1 3 false] 1)))
  = Some (RewindInfoEvent 5 1 3 false).
Proof.
  refine (proj1 (mergeNetworkData_keeps_current_record Client 9 0
            (mkRewindQueue [RewindInfoState 2 0 1 true; RewindInfoEvent 8 1 2 true]
                           [RewindInfoState 0 0 0 true; RewindInfoEvent 5 1 3 false] 1)
            _)).
  vm_compute. lia.
Defined.

(** X9. With the Cursor at end-of-log before the call, mergeNetworkData
    leaves it on the first inbox entry it drains (in arrival order, with
    the tick the server gave it), also when later entries are merged in
    front of that record. *)
Theorem mergeNetworkData_cursor_on_first_drained (role : Role)
    (world_ticks rewind_ticks0 : Z) (q : RewindQueue) (d : RewindInfo)
    (rest : list RewindInfo) :
  m_current q = end_of_log q ->
  filter (fun r => getTicks r <= world_ticks) (m_network_events q) = d :: rest ->
  getCurrent (ms_queue (mergeNetworkData role world_ticks rewind_ticks0 q))
    = Some (retimed role world_ticks d)
  /\ hasMoreRewindInfo
       (ms_queue (mergeNetworkData role world_ticks rewind_ticks0 q)) = true.
Proof.
  intros Hend Hd.
  destruct (mergeNetworkData_current role world_ticks rewind_ticks0 q)
    as (Hc & He & Hg).
  rewrite Hd, fmap_cons in Hc, He, Hg.
  set (q1 := insertRewindInfo (retimed role world_ticks d) q).
  change (insert_each (retimed role world_ticks d :: (retimed role world_ticks <$> rest)) q)
    with (insert_each (retimed role world_ticks <$> rest) q1) in Hc, He, Hg.
  assert (Hlt : (m_current q1 < end_of_log q1)%nat)
    by (apply insertRewindInfo_current_lt; lia).
  destruct (insert_each_current (retimed role world_ticks <$> rest) q1 Hlt)
    as [Hlt' Hsame].
  split.
  - rewrite Hg, Hsame. subst q1. unfold getCurrent. simpl.
    unfold end_of_log in Hend. rewrite Hend, Nat.eqb_refl.
    rewrite lookup_insert_before by apply insert_position_le.
    case_decide; [lia |]. by case_decide.
  - unfold hasMoreRewindInfo. rewrite Hc, He.
    apply negb_true_iff, Nat.eqb_neq. lia.
Qed.

Lemma mergeNetworkData_cursor_witness :
  getCurrent
    (ms_queue (mergeNetworkData Client 9 0
       (mkRewindQueue [RewindInfoEvent 7 1 1 true; RewindInfoEvent 3 1 2 true]
                      [RewindInfoState 0 0 0 true] 1)))
  = Some (RewindInfoEvent 7 1 1 true).
Proof.
  refine (proj1 (mergeNetworkData_cursor_on_first_drained Client 9 0
            (mkRewindQueue [RewindInfoEvent 7 1 1 true; RewindInfoEvent 3 1 2 true]
                           [RewindInfoState 0 0 0 true] 1)
            (RewindInfoEvent 7 1 1 true) [RewindInfoEvent 3 1 2 true] _ _));
    reflexivity.
Defined.

(** ** More on mergeNetworkData *)

Section MergeMore.

Lemma filter_future_drained (w : Z) (l : list RewindInfo) :
  filter (fun r => w < getTicks r) l ++ filter (fun r => getTicks r <= w) l ≡ₚ l.
Proof.
  induction l as [| r l IH]; [done |].
  rewrite !filter_cons. repeat case_decide; try lia; simpl.
  - by rewrite IH.
  - rewrite <- Permutation_middle. by rewrite IH.
Qed.

Lemma retimed_client w (l : list RewindInfo) : retimed Client w <$> l = l.
Proof. induction l as [| r l IH]; [done |]. rewrite fmap_cons. by f_equal. Qed.

Lemma merge_loop_all_future role w pending s :
  Forall (fun r => w < getTicks r) pending ->
  merge_loop role w pending s = (pending, s).
Proof.
  induction 1 as [| r l Hr Hl IH]; [done |].
  rewrite merge_loop_cons, IH.
  destruct (Z.gtb_spec (getTicks r) w); [done | lia].
Qed.

Lemma mergeNetworkData_all_future role w rt0 q :
  Forall (fun r => w < getTicks r) (m_network_events q) ->
  ms_queue (mergeNetworkData role w rt0 q) = q
  /\ ms_needs_rewind (mergeNetworkData role w rt0 q) = false
  /\ ms_effects (mergeNetworkData role w rt0 q) = [].
Proof.
  intros Hfut. unfold mergeNetworkData.
  destruct (m_network_events q) as [| r l] eqn:E; [done |].
  rewrite (merge_loop_all_future role w (r :: l) _ Hfut). simpl.
  split_and!; [| done | done]. rewrite <- E. apply set_network_events_same.
Qed.

Lemma merge_loop_server_rewind_ticks w pending s :
  ms_rewind_ticks (merge_loop Server w pending s).2 = ms_rewind_ticks s.
Proof.
  revert s. induction pending as [| ri rest IH]; intros s; [done |].
  rewrite merge_loop_cons. destruct (getTicks ri >? w); simpl; [apply IH |].
  by rewrite IH.
Qed.

(** The two out-parameters of a call on a non-empty inbox. *)
Lemma mergeNetworkData_outputs role w rt0 q r l :
  m_network_events q = r :: l ->
  ms_needs_rewind (mergeNetworkData role w rt0 q)
    = ms_needs_rewind (merge_loop role w (r :: l) (mkMergeState q false (-9999) [])).2
  /\ ms_rewind_ticks (mergeNetworkData role w rt0 q)
     = ms_rewind_ticks (merge_loop role w (r :: l) (mkMergeState q false (-9999) [])).2.
Proof.
  intros E. unfold mergeNetworkData. rewrite E.
  by destruct (merge_loop role w (r :: l) _).
Qed.

End MergeMore.

(** X10. mergeNetworkData neither loses nor duplicates a record: inbox and
    main log together hold as many records after the call as before, and
    on a client they hold the very same records. *)
Theorem mergeNetworkData_conserves_records (role : Role)
    (world_ticks rewind_ticks0 : Z) (q : RewindQueue) :
  (length (m_network_events
             (ms_queue (mergeNetworkData role world_ticks rewind_ticks0 q)))
   + length (m_all_rewind_info
               (ms_queue (mergeNetworkData role world_ticks rewind_ticks0 q)))
   = length (m_network_events q) + length (m_all_rewind_info q))%nat
  /\ m_network_events
       (ms_queue (mergeNetworkData Client world_ticks rewind_ticks0 q))
     ++ m_all_rewind_info
          (ms_queue (mergeNetworkData Client world_ticks rewind_ticks0 q))
     ≡ₚ m_network_events q ++ m_all_rewind_info q.
Proof.
  rewrite !mergeNetworkData_queue. simpl.
  pose proof (filter_future_drained world_ticks (m_network_events q)) as Hsplit.
  split.
  - rewrite insert_each_permutation, length_app, length_fmap.
    apply Permutation_length in Hsplit. rewrite length_app in Hsplit. lia.
  - rewrite insert_each_permutation, retimed_client.
    by rewrite (assoc (++)), Hsplit.
Qed.

(** X11. Merging again for the same world_ticks does nothing: after a call
    of mergeNetworkData, a second call with the same world_ticks leaves
    the queue as it is, reports no rewind and logs nothing. *)
Theorem mergeNetworkData_twice (role : Role) (world_ticks rewind_ticks0
    rewind_ticks1 : Z) (q : RewindQueue) :
  let q1 := ms_queue (mergeNetworkData role world_ticks rewind_ticks0 q) in
  ms_queue (mergeNetworkData role world_ticks rewind_ticks1 q1) = q1
  /\ ms_needs_rewind (mergeNetworkData role world_ticks rewind_ticks1 q1) = false
  /\ ms_effects (mergeNetworkData role world_ticks rewind_ticks1 q1) = [].
Proof.
  intros q1. apply mergeNetworkData_all_future.
  subst q1. rewrite mergeNetworkData_queue. simpl.
  apply Forall_forall. intros r Hr. by apply list_elem_of_filter in Hr as [Hr _].
Qed.

(** X12. What rewind_ticks holds when no rewind is asked for: the value
    the caller had in it if the inbox was empty (the call returns before
    writing), and -9999 otherwise. *)
Theorem rewind_ticks_when_no_rewind_needed (role : Role)
    (world_ticks rewind_ticks0 : Z) (q : RewindQueue) :
  ms_needs_rewind (mergeNetworkData role world_ticks rewind_ticks0 q) = false ->
  ms_rewind_ticks (mergeNetworkData role world_ticks rewind_ticks0 q)
    = match m_network_events q with
      | [] => rewind_ticks0
      | _ :: _ => -9999
      end.
Proof.
  destruct (m_network_events q) as [| r l] eqn:E.
  - unfold mergeNetworkData. by rewrite E.
  - destruct (mergeNetworkData_outputs role world_ticks rewind_ticks0 q r l E)
      as [-> ->].
    destruct role.
    + intros _. by rewrite merge_loop_server_rewind_ticks.
    + destruct (merge_loop_client world_ticks (r :: l)
                  (mkMergeState q false (-9999) [])) as [Hn Ht].
      rewrite Hn, Ht. simpl. intros Hfalse.
      apply bool_decide_eq_false in Hfalse.
      destruct (filter _ (r :: l)) as [| x xs]; [done |].
      exfalso. by apply Hfalse.
Qed.

Lemma rewind_ticks_when_no_rewind_witness :
  ms_rewind_ticks
    (mergeNetworkData Client 4 77
       (mkRewindQueue [RewindInfoEvent 4 1 0 true; RewindInfoEvent 6 1 1 true]
                      [] 0)) = -9999.
Proof.
  refine (rewind_ticks_when_no_rewind_needed Client 4 77
            (mkRewindQueue [RewindInfoEvent 4 1 0 true; RewindInfoEvent 6 1 1 true]
                           [] 0) _).
  reflexivity.
Defined.

(** X13. On a client a rewind is always asked for to a tick in the past:
    when needs_rewind is set and world_ticks is above -9999, rewind_ticks
    is below world_ticks (and never below -9999). *)
Theorem client_rewind_ticks_in_the_past (world_ticks rewind_ticks0 : Z)
    (q : RewindQueue) :
  ms_needs_rewind (mergeNetworkData Client world_ticks rewind_ticks0 q) = true ->
  -9999 <= ms_rewind_ticks (mergeNetworkData Client world_ticks rewind_ticks0 q)
  /\ (-9999 < world_ticks ->
      ms_rewind_ticks (mergeNetworkData Client world_ticks rewind_ticks0 q)
        < world_ticks).
Proof.
  destruct (m_network_events q) as [| r l] eqn:E.
  - unfold mergeNetworkData. by rewrite E.
  - destruct (mergeNetworkData_outputs Client world_ticks rewind_ticks0 q r l E)
      as [-> ->].
    destruct (merge_loop_client world_ticks (r :: l)
                (mkMergeState q false (-9999) [])) as [_ Ht].
    rewrite Ht. simpl ms_rewind_ticks. intros _.
    destruct (foldl_max_spec
                (filter (fun r0 => getTicks r0 < world_ticks) (r :: l)) (-9999))
      as (Hlow & _ & Hhit).
    split; [done |]. intros Hw.
    destruct Hhit as [-> | (x & Hx & <-)]; [done |].
    by apply list_elem_of_filter in Hx as [Hx _].
Qed.

Lemma client_rewind_ticks_in_the_past_witness :
  -9999 <= ms_rewind_ticks
             (mergeNetworkData Client 10 0
                (mkRewindQueue [RewindInfoState 7 0 0 true] [] 0))
  /\ (-9999 < 10 ->
      ms_rewind_ticks
        (mergeNetworkData Client 10 0
           (mkRewindQueue [RewindInfoState 7 0 0 true] [] 0)) < 10).
Proof.
  refine (client_rewind_ticks_in_the_past 10 0
            (mkRewindQueue [RewindInfoState 7 0 0 true] [] 0) _).
  reflexivity.
Defined.

Section InboxInvariant.

Lemma step_inbox_confirmed role op q q' :
  step role op q = Returns q' ->
  Forall (fun r => isConfirmed r = true) (m_network_events q) ->
  Forall (fun r => isConfirmed r = true) (m_network_events q').
Proof.
  destruct op; simpl; intros Hstep Hin; try (injection Hstep as <-); try done.
  - apply Forall_app. split; [done |]. by repeat constructor.
  - apply Forall_app. split; [done |]. by repeat constructor.
  - rewrite mergeNetworkData_queue. simpl.
    apply Forall_forall. intros r Hr. apply list_elem_of_filter in Hr as [_ Hr].
    by eapply Forall_forall in Hin.
  - destruct (undoUntil undo_ticks q) as [r | |] eqn:E; simpl in Hstep; try done.
    injection Hstep as <-. apply undoUntil_log in E as [_ ->]. done.
  - by rewrite (proj2 (replayAllEvents_log ticks q)).
Qed.

End InboxInvariant.

(** X14. Every record waiting in the inbox is confirmed, whatever calls
    were made: addNetworkEvent and addNetworkState only create confirmed
    records, and nothing else puts a record into the inbox. *)
Theorem inbox_records_are_confirmed role ops q :
  run role ops new_queue = Returns q ->
  Forall (fun r => isConfirmed r = true) (m_network_events q).
Proof.
  assert (Hinv : forall ops q0 q1, run role ops q0 = Returns q1 ->
            Forall (fun r => isConfirmed r = true) (m_network_events q0) ->
            Forall (fun r => isConfirmed r = true) (m_network_events q1)).
  { clear. intros ops. induction ops as [| op rest IH]; intros q0 q1 Hrun H0;
      simpl in Hrun.
    - by injection Hrun as <-.
    - destruct (step role op q0) as [q' | |] eqn:E; simpl in Hrun; try done.
      eapply IH; [done |]. by eapply step_inbox_confirmed. }
  intros Hrun. eapply Hinv; [done |]. constructor.
Qed.

Lemma inbox_records_are_confirmed_witness :
  Forall (fun r => isConfirmed r = true)
    (m_network_events
       (ms_queue (mergeNetworkData Server 1 0
          (addNetworkState 0 1 2 (addNetworkEvent 1 0 1 new_queue))))).
Proof.
  refine (inbox_records_are_confirmed Server
            [OpAddNetworkEvent 1 0 1; OpAddNetworkState 0 1 2;
             OpMergeNetworkData 1] _ _).
  reflexivity.
Defined.

(** ** More on replayAllEvents *)

Section ReplayMore.

Lemma replay_loop_stops t (l : list RewindInfo) n :
  match l !! n with Some r => getTicks r <> t | None => True end ->
  replay_loop t (drop n l) = (0%nat, []).
Proof.
  destruct (l !! n) as [r |] eqn:E; intros Hr.
  - rewrite (drop_S l r n E). simpl.
    destruct (Z.eqb_spec (getTicks r) t); [done | done].
  - apply lookup_ge_None in E. by rewrite drop_ge.
Qed.

Lemma filter_tick_all t (l : list RewindInfo) :
  Forall (fun r => getTicks r = t) l -> filter (fun r => getTicks r = t) l = l.
Proof.
  induction 1 as [| r l Hr Hl IH]; [done |].
  rewrite filter_cons, IH. by case_decide.
Qed.

Lemma filter_tick_none t (l : list RewindInfo) :
  Forall (fun r => t < getTicks r) l -> filter (fun r => getTicks r = t) l = [].
Proof.
  induction 1 as [| r l Hr Hl IH]; [done |].
  rewrite filter_cons, IH. case_decide; [lia | done].
Qed.

Lemma tick_sorted_drop n l : tick_sorted l -> tick_sorted (drop n l).
Proof.
  intros Ht i j a b Hij Ha Hb. rewrite lookup_drop in Ha, Hb.
  apply (Ht (n + i)%nat (n + j)%nat); [lia | done | done].
Qed.

(** In a log sorted by tick, a replay that starts on a record with tick
    [t] or more passes every record of tick [t] that lies ahead. *)
Lemma replay_loop_whole_tick t (l : list RewindInfo) :
  tick_sorted l ->
  (forall r, l !! 0%nat = Some r -> t <= getTicks r) ->
  let n := (replay_loop t l).1 in
  take n l = filter (fun r => getTicks r = t) l
  /\ Forall (fun r => t < getTicks r) (drop n l)
  /\ (forall r, l !! 0%nat = Some r -> getTicks r = t -> (0 < n)%nat).
Proof.
  intros Hsorted Hfirst n.
  destruct (replay_loop_spec t l) as (Hn & Hpassed & Hstop & _).
  fold n in Hn, Hpassed, Hstop. clearbody n.
  assert (Hrest : Forall (fun r => t < getTicks r) (drop n l)).
  { apply Forall_lookup. intros i x Hx. rewrite lookup_drop in Hx.
    destruct (lookup_lt_is_Some_2 l n) as [h Hh].
    { apply lookup_lt_Some in Hx. lia. }
    rewrite Hh in Hstop. pose proof (lookup_lt_Some _ _ _ Hh) as Hlen.
    assert (Hge : t <= getTicks h).
    { destruct n as [| m] eqn:En; [by apply Hfirst |].
      destruct (lookup_lt_is_Some_2 l 0) as [r0 H0]; [lia |].
      assert (getTicks r0 = t).
      { apply (Forall_lookup_1 _ _ 0%nat r0 Hpassed).
        rewrite lookup_take_lt by lia. exact H0. }
      pose proof (Hsorted 0%nat (S m) r0 h ltac:(lia) H0 Hh). lia. }
    destruct i as [| i].
    - rewrite Nat.add_0_r, Hh in Hx. injection Hx as <-. lia.
    - pose proof (Hsorted n (n + S i)%nat h x ltac:(lia) Hh Hx). lia. }
  split_and!; [| done |].
  - rewrite <- (take_drop n l) at 2. rewrite filter_app.
    rewrite (filter_tick_all t _ Hpassed), (filter_tick_none t _ Hrest).
    by rewrite app_nil_r.
  - intros r Hr Ht. destruct n as [| m] eqn:En; [| lia].
    rewrite Hr in Hstop. done.
Qed.

Lemma replayAllEvents_whole_tick t q :
  log_ordered (m_all_rewind_info q) ->
  (forall r, getCurrent q = Some r -> t <= getTicks r) ->
  (replayAllEvents t q).2
    = CallRewind <$>
        filter (fun r => isEvent r = true)
          (filter (fun r => getTicks r = t)
             (drop (m_current q) (m_all_rewind_info q)))
  /\ Forall (fun r => t < getTicks r)
        (drop (m_current (replayAllEvents t q).1) (m_all_rewind_info q))
  /\ (forall r, getCurrent q = Some r -> getTicks r = t ->
        (m_current q < m_current (replayAllEvents t q).1)%nat).
Proof.
  intros [Hsorted _] Hfirst. unfold getCurrent in Hfirst.
  set (l := drop (m_current q) (m_all_rewind_info q)).
  assert (H0 : forall r, l !! 0%nat = Some r <-> getCurrent q = Some r).
  { intros r. unfold l, getCurrent. by rewrite lookup_drop, Nat.add_0_r. }
  destruct (replay_loop_whole_tick t l) as (Htake & Hrest & Hmove).
  { by apply tick_sorted_drop. }
  { intros r Hr. by apply Hfirst, H0. }
  destruct (replay_loop_spec t l) as (_ & _ & _ & Heffs).
  unfold replayAllEvents. fold l.
  destruct (replay_loop t l) as [n effs]. simpl in *.
  split_and!.
  - by rewrite Heffs, Htake.
  - unfold l in Hrest. by rewrite drop_drop in Hrest.
  - intros r Hr Ht. apply H0 in Hr. specialize (Hmove r Hr Ht). lia.
Qed.

End ReplayMore.

(** X15. Replaying a tick twice replays nothing the second time: right
    after replayAllEvents(ticks), a second call with the same ticks makes
    no call and leaves the Cursor where it is. *)
Theorem replayAllEvents_twice (ticks : Z) (q : RewindQueue) :
  replayAllEvents ticks (replayAllEvents ticks q).1
    = ((replayAllEvents ticks q).1, []).
Proof.
  unfold replayAllEvents.
  destruct (replay_loop_spec ticks (drop (m_current q) (m_all_rewind_info q)))
    as (_ & _ & Hstop & _).
  destruct (replay_loop ticks (drop (m_current q) (m_all_rewind_info q)))
    as [n effs]. simpl in *.
  rewrite <- drop_drop, (replay_loop_stops ticks _ n Hstop).
  by rewrite Nat.add_0_r.
Qed.

(** X16. In an ordered log, when the Cursor is at end-of-log or on a
    record whose tick is not below ticks, replayAllEvents(ticks) calls
    rewind() on every Event of that tick that lies at or behind the
    Cursor, in log order, and afterwards every record at or behind the
    Cursor has a larger tick. *)
Theorem replayAllEvents_replays_the_whole_tick (ticks : Z) (q : RewindQueue) :
  log_ordered (m_all_rewind_info q) ->
  (forall r, getCurrent q = Some r -> ticks <= getTicks r) ->
  (replayAllEvents ticks q).2
    = CallRewind <$>
        filter (fun r => isEvent r = true)
          (filter (fun r => getTicks r = ticks)
             (drop (m_current q) (m_all_rewind_info q)))
  /\ Forall (fun r => ticks < getTicks r)
        (drop (m_current (replayAllEvents ticks q).1) (m_all_rewind_info q)).
Proof.
  intros Ho Hfirst.
  destruct (replayAllEvents_whole_tick ticks q Ho Hfirst) as (H1 & H2 & _).
  by split.
Qed.

Lemma replayAllEvents_whole_tick_witness :
  (replayAllEvents 4
     (mkRewindQueue []
        [RewindInfoState 0 0 0 true; RewindInfoState 4 0 1 false;
         RewindInfoEvent 4 1 2 true; RewindInfoEvent 4 1 3 true;
         RewindInfoEvent 6 1 4 true] 1)).2
  = [CallRewind (RewindInfoEvent 4 1 2 true);
     CallRewind (RewindInfoEvent 4 1 3 true)].
Proof.
  refine (proj1 (replayAllEvents_replays_the_whole_tick 4
            (mkRewindQueue [] _ 1) _ _)).
  - apply sorted_log_ordered. vm_compute. repeat constructor; vm_compute; tauto.
  - intros r [= <-]. vm_compute. discriminate.
Defined.

(** X17. Undo, then replay.  In an ordered log, when undoUntil has stopped
    on a confirmed State, replayAllEvents for the tick it returned moves
    the Cursor past that State and calls rewind() on every Event of that
    tick behind it, in log order, and on nothing else. *)
Theorem undoUntil_then_replayAllEvents (undo_ticks : Z) (q : RewindQueue)
    (r : UndoResult) :
  log_ordered (m_all_rewind_info q) ->
  (m_current q <= end_of_log q)%nat ->
  undoUntil undo_ticks q = Returns r ->
  hasMoreRewindInfo (ur_queue r) = true ->
  (replayAllEvents (ur_return r) (ur_queue r)).2
    = CallRewind <$>
        filter (fun x => isEvent x = true)
          (filter (fun x => getTicks x = ur_return r)
             (drop (m_current (ur_queue r)) (m_all_rewind_info q)))
  /\ (m_current (ur_queue r)
      < m_current (replayAllEvents (ur_return r) (ur_queue r)).1)%nat.
Proof.
  intros Ho Hcur Hrun Hmore.
  destruct (undoUntil_three_ways undo_ticks q Hcur)
    as [[_ Hub] | [(k & st & Hk & Hst & _ & _ & Hfound) | (_ & _ & Hnot)]].
  - congruence.
  - rewrite Hfound in Hrun. injection Hrun as <-. simpl in *.
    destruct (replayAllEvents_whole_tick (getTicks st) (with_current k q))
      as (H1 & _ & H3); [done | |].
    + intros x Hx. unfold getCurrent in Hx. simpl in Hx.
      rewrite Hst in Hx. injection Hx as <-. lia.
    + split; [exact H1 |]. by apply (H3 st).
  - rewrite Hnot in Hrun. injection Hrun as <-.
    unfold hasMoreRewindInfo, end_of_log in Hmore. simpl in Hmore.
    by rewrite Nat.eqb_refl in Hmore.
Qed.

Lemma undoUntil_then_replayAllEvents_witness :
  (replayAllEvents 2
     (mkRewindQueue []
        [RewindInfoState 0 0 0 true; RewindInfoState 2 0 1 true;
         RewindInfoEvent 2 1 2 true; RewindInfoEvent 3 1 3 true] 1)).2
  = [CallRewind (RewindInfoEvent 2 1 2 true)].
Proof.
  refine (proj1 (undoUntil_then_replayAllEvents 2
            (mkRewindQueue []
               [RewindInfoState 0 0 0 true; RewindInfoState 2 0 1 true;
                RewindInfoEvent 2 1 2 true; RewindInfoEvent 3 1 3 true] 4)
            {| ur_queue := mkRewindQueue [] _ 1; ur_return := 2;
               ur_effects := _ |} _ _ _ _)).
  - apply sorted_log_ordered. vm_compute. repeat constructor; vm_compute; tauto.
  - vm_compute. lia.
  - reflexivity.
  - reflexivity.
Defined.
